(** * Interview flow: resume upload and speech-driven technical interview

    A shallow embedding of [src/components/interview/ResumeUpload.tsx]
    (the [ResumeUpload] component and, after the document separator, the
    [TechnicalInterview] component) together with the properties of the
    specification that concern them.

    React state ([useState]) and refs ([useRef]) become record fields; an
    event handler becomes a function from the state of the render it closes
    over to the next state and the list of effects it performs on the outside
    world (toasts, calls of the parent's callbacks, calls on browser objects).
    What the outside world answers (a random draw, a rejected promise, a
    throwing [start]) is an explicit argument of the handler. *)

From Stdlib Require Import ZArith QArith Qround String Ascii Lia.
From stdpp Require Import base list gmap sets.

Local Open Scope Z_scope.

(** ** JavaScript strings *)

Module JS.

(** A JavaScript string is a sequence of UTF-16 code units. *)
Definition jsstring := list N.

(** Literals: the code units of an ASCII string. *)
Definition str (s : string) : jsstring :=
  map N_of_ascii (list_ascii_of_string s).

(** [s ? a : b] and [!s] for a string [s]: only the empty string is falsy. *)
Definition truthy (s : jsstring) : bool :=
  match s with
  | [] => false
  | _ :: _ => true
  end.

(** [a || b] on strings. *)
Definition or_else (a b : jsstring) : jsstring :=
  if truthy a then a else b.

(** ECMAScript WhiteSpace and LineTerminator code points, the characters
    [String.prototype.trim] strips. *)
Definition is_whitespace (c : N) : bool :=
  ((9 <=? c) && (c <=? 13) || (c =? 32) || (c =? 160) || (c =? 5760)
   || (8192 <=? c) && (c <=? 8202) || (c =? 8232) || (c =? 8233)
   || (c =? 8239) || (c =? 8287) || (c =? 12288) || (c =? 65279))%N.

Fixpoint trimStart (s : jsstring) : jsstring :=
  match s with
  | [] => []
  | c :: t => if is_whitespace c then trimStart t else s
  end.

Definition trimEnd (s : jsstring) : jsstring :=
  rev (trimStart (rev s)).

Definition trim (s : jsstring) : jsstring :=
  trimEnd (trimStart s).

(** [hay.startsWith(needle)]. *)
Fixpoint startsWith (needle hay : jsstring) : bool :=
  match needle, hay with
  | [], _ => true
  | _ :: _, [] => false
  | a :: n, b :: h => (a =? b)%N && startsWith n h
  end.

(** [hay.includes(needle)]. *)
Fixpoint includes (needle hay : jsstring) : bool :=
  startsWith needle hay ||
  match hay with
  | [] => false
  | _ :: h => includes needle h
  end.

(** [parts.join(sep)]. *)
Fixpoint join (sep : jsstring) (parts : list jsstring) : jsstring :=
  match parts with
  | [] => []
  | [p] => p
  | p :: rest => p ++ sep ++ join sep rest
  end.

(** [ToInt32]: wrap-around to a signed 32-bit integer. *)
Definition toInt32 (z : Z) : Z := (z + 2 ^ 31) mod 2 ^ 32 - 2 ^ 31.

(** [x | 0] for a finite number [x]: truncation toward zero, then [ToInt32]. *)
Definition bitor0 (x : Q) : Z :=
  toInt32 (Z.quot (Qnum x) (Zpos (Qden x))).

(** The digit characters [0-9a-f]. *)
Definition hexDigit (d : Z) : N :=
  Z.to_N (if d <? 10 then 48 + d else 87 + d).

Fixpoint hexDigits (fuel : nat) (v : Z) (acc : jsstring) : jsstring :=
  match fuel with
  | O => acc
  | S f =>
      let acc' := hexDigit (v mod 16) :: acc in
      if v / 16 =? 0 then acc' else hexDigits f (v / 16) acc'
  end.

(** [v.toString(16)] for an integer [v]. The fuel bounds the number of
    digits: a number below [2 ^ (k+1)] has at most [k+1] hexadecimal digits. *)
Definition toString16 (v : Z) : jsstring :=
  let digits a := hexDigits (S (Z.to_nat (Z.log2 a))) a [] in
  if v <? 0 then 45%N :: digits (- v) else digits v.

Definition is_hex (c : N) : bool :=
  ((48 <=? c) && (c <=? 57) || (97 <=? c) && (c <=? 102))%N.

End JS.

Import JS.

(** ** The upload step *)

Module ResumeUpload.

(** [Math.random()] is modelled by the sequence of its successive results;
    each is a number [x] with [0 <= x < 1]. *)
Definition random_source := nat -> Q.

Definition in_unit_interval (x : Q) : Prop := (0 <= x)%Q /\ (x < 1)%Q.

Definition uuidTemplate : jsstring := str "xxxxxxxx-xxxx-4xxx-yxxx-xxxxxxxxxxxx".

(** The replacer callback of [generateUUID], given the random draw it makes. *)
Definition uuidReplacer (c : N) (random : Q) : jsstring :=
  let r := bitor0 (random * 16) in
  let v := if (c =? 120)%N then r else Z.lor (Z.land r 3) 8 in
  toString16 v.

(** [template.replace(/[xy]/g, replacer)]: every [x] or [y] is replaced, left
    to right, by what the replacer returns for it; [k] counts the draws made
    so far. *)
Fixpoint replace_xy (tpl : jsstring) (rnd : random_source) (k : nat) : jsstring * nat :=
  match tpl with
  | [] => ([], k)
  | c :: t =>
      if ((c =? 120) || (c =? 121))%N then
        let piece := uuidReplacer c (rnd k) in
        let '(rest, k') := replace_xy t rnd (S k) in
        (piece ++ rest, k')
      else
        let '(rest, k') := replace_xy t rnd k in
        (c :: rest, k')
  end.

(** [generateUUID()], given the draws [Math.random] makes from this call on. *)
Definition generateUUID (rnd : random_source) : jsstring :=
  fst (replace_xy uuidTemplate rnd 0).

(** The canonical layout of a version-4 UUID: 36 characters, hyphens at
    positions 8, 13, 18 and 23, hexadecimal digits elsewhere, the version
    nibble (position 14) 4 and the variant nibble (position 19) one of
    8, 9, a, b. *)
Fixpoint uuid_groups (i : nat) (s : jsstring) : bool :=
  match s with
  | [] => true
  | c :: t =>
      (if (i =? 8)%nat || (i =? 13)%nat || (i =? 18)%nat || (i =? 23)%nat
       then (c =? 45)%N else is_hex c)
      && uuid_groups (S i) t
  end.

Definition is_uuid_v4 (s : jsstring) : bool :=
  (length s =? 36)%nat
  && uuid_groups 0 s
  && match s !! 14%nat with Some c => (c =? 52)%N | None => false end
  && match s !! 19%nat with
     | Some c => (c =? 56)%N || (c =? 57)%N || (c =? 97)%N || (c =? 98)%N
     | None => false
     end.

(** A [File] as far as the component looks at it; [type] is the empty string
    when the browser could not determine one. *)
Record File := { name : jsstring; type : jsstring }.

(** The component's [useState] cells. *)
Record state := {
  resumeFile : option File;
  resumeContent : jsstring;
  isProcessing : bool;
  sessionId : jsstring
}.

Definition initial : state :=
  {| resumeFile := None; resumeContent := []; isProcessing := false; sessionId := [] |}.

(** What a handler does to the outside world. *)
Inductive effect :=
| Toast (title description : jsstring) (destructive : bool)
| UploadResumeExtract (id : jsstring) (file : File)
| OnNext (resumeContent sessionId : jsstring).

(** How the awaited [uploadResumeExtract(id, file)] settles: resolved with a
    result whose [chunks_indexed] renders in a template literal as the given
    text, or rejected. *)
Inductive extract_outcome :=
| Resolved (chunks_indexed : jsstring)
| Rejected.

(** [handleFileUpload] up to its [await]: the type check, then the first
    three state updates and the request. [None] is the early [return]. *)
Definition handleFileUpload_begin (st : state) (file : File) (rnd : random_source)
  : state * list effect * option jsstring :=
  if negb (truthy (type file)) || negb (includes (str "pdf") (type file)) then
    (st, [Toast (str "Invalid file type") (str "Please upload a PDF file") true], None)
  else
    let id := generateUUID rnd in
    ({| resumeFile := Some file; resumeContent := resumeContent st;
        isProcessing := true; sessionId := id |},
     [UploadResumeExtract id file], Some id).

(** [handleFileUpload] from the point where the request settles: the rest of
    the [try], or the [catch], and the [finally]. *)
Definition handleFileUpload_settle (st : state) (id : jsstring) (o : extract_outcome)
  : state * list effect :=
  match o with
  | Resolved n =>
      ({| resumeFile := resumeFile st;
          resumeContent := str "Indexed " ++ n ++ str " chunks for session " ++ id;
          isProcessing := false; sessionId := sessionId st |},
       [Toast (str "Resume processed successfully")
              (str "Analyzed and indexed (" ++ n ++ str " chunks)") false])
  | Rejected =>
      ({| resumeFile := resumeFile st; resumeContent := resumeContent st;
          isProcessing := false; sessionId := sessionId st |},
       [Toast (str "Error processing resume") (str "Please try uploading again") true])
  end.

(** The whole of [handleFileUpload(file)]. *)
Definition handleFileUpload (st : state) (file : File) (rnd : random_source)
    (o : extract_outcome) : state * list effect :=
  match handleFileUpload_begin st file rnd with
  | (st1, fx1, None) => (st1, fx1)
  | (st1, fx1, Some id) =>
      let '(st2, fx2) := handleFileUpload_settle st1 id o in
      (st2, fx1 ++ fx2)
  end.

Definition handleSubmit (st : state) : state * list effect :=
  if negb (truthy (resumeContent st)) then
    (st, [Toast (str "Resume required") (str "Please upload your resume") true])
  else
    (st, [OnNext (resumeContent st) (sessionId st)]).

(** A network call among the effects of a handler. *)
Definition is_network_call (e : effect) : bool :=
  match e with
  | UploadResumeExtract _ _ => true
  | _ => false
  end.

(** A user-visible error: a toast of the destructive variant. *)
Definition is_error_toast (e : effect) : bool :=
  match e with
  | Toast _ _ true => true
  | _ => false
  end.

(** What [replace] leaves at a position of the template: the template's own
    character, or a hexadecimal digit for an [x], or one of 8, 9, a, b for
    a [y]. *)
Definition replaced (c d : N) : Prop :=
  if (c =? 120)%N then is_hex d = true
  else if (c =? 121)%N then
    ((d =? 56) || (d =? 57) || (d =? 97) || (d =? 98))%N = true
  else d = c.

(** Sample inputs: a random source that always draws [q], and two files. *)
Definition draws_of (q : Q) : random_source := fun _ => q.

Definition untyped_file : File := {| name := str "cv"; type := [] |}.
Definition pdf_file : File := {| name := str "cv.pdf"; type := str "application/pdf" |}.

(** The reading of C5 as it is written: after a failed extraction the stored
    file, the session identifier and the status text are what they were
    before the upload. *)
Definition unchanged_by_failed_upload (st : state) (file : File) (rnd : random_source) : Prop :=
  let st' := fst (handleFileUpload st file rnd Rejected) in
  resumeFile st' = resumeFile st
  /\ sessionId st' = sessionId st
  /\ resumeContent st' = resumeContent st.

(** ** The rest of the upload view *)

(** The [disabled] attribute of the submit button. *)
Definition submitDisabled (st : state) : bool :=
  isProcessing st || negb (truthy (resumeContent st)).

(** One use of the file input: the file chosen, the random draws of that
    call and how its extraction request settles. *)
Record attempt := {
  chosen : File;
  draws : random_source;
  outcome : extract_outcome
}.

(** Upload attempts one after the other, each begun after the one before
    has settled. *)
Fixpoint uploads (st : state) (l : list attempt) : state * list effect :=
  match l with
  | [] => (st, [])
  | a :: rest =>
      let '(st1, fx1) := handleFileUpload st (chosen a) (draws a) (outcome a) in
      let '(st2, fx2) := uploads st1 rest in
      (st2, fx1 ++ fx2)
  end.

(** An attempt that passes the type check and whose request resolves. *)
Definition succeeds (a : attempt) : bool :=
  includes (str "pdf") (type (chosen a))
  && match outcome a with Resolved _ => true | Rejected => false end.

(** More sample inputs: random sources that always draw one half, and one
    half except for a quarter at the sixteenth draw. *)
Definition half : random_source := fun _ => 1 # 2.

Definition half_but_variant : random_source :=
  fun k => if (k =? 15)%nat then 1 # 4 else 1 # 2.

(** The nibble [(Math.random() * 16) | 0] of a draw. *)
Definition nibble (x : Q) : Z := bitor0 (x * 16).

End ResumeUpload.

(** ** The interview step *)

Module TechnicalInterview.

Inductive answer_type := role | resume.

(** An element of [answers]. [question] is [questions[currentQuestionIndex]],
    which is [undefined] ([None]) when the index is out of range. *)
Record Answer := {
  question : option jsstring;
  answer : jsstring;
  type : answer_type
}.

(** The component's [useState] cells followed by its [useRef] cells; of an
    object held in a ref only its presence (non-null) is kept. *)
Record state := {
  currentQuestionIndex : nat;
  answers : list Answer;
  currentAnswer : jsstring;
  isRecording : bool;
  answeredOnce : gset nat;
  transcript : jsstring;
  interim : jsstring;
  questions : list jsstring;
  isLoading : bool;
  recognitionInstanceRef : bool;
  mediaRecorderRef : bool;
  wsRef : bool;
  isUsingWsRef : bool
}.

(** The state of the first render. *)
Definition initial : state :=
  {| currentQuestionIndex := 0; answers := []; currentAnswer := [];
     isRecording := false; answeredOnce := ∅; transcript := []; interim := [];
     questions := []; isLoading := true;
     recognitionInstanceRef := false; mediaRecorderRef := false;
     wsRef := false; isUsingWsRef := false |}.

(** What the component reads of [window]; [typeof window === 'undefined']
    is the absence of one ([None]). *)
Record Window := {
  webkitSpeechRecognition : bool;
  SpeechRecognition : bool;
  protocol : jsstring;
  hostname : jsstring
}.

(** [recognitionCtor], as a truth value. *)
Definition recognitionCtor (window : option Window) : bool :=
  match window with
  | Some w => webkitSpeechRecognition w || SpeechRecognition w
  | None => false
  end.

Definition jseq (a b : jsstring) : bool := bool_decide (a = b).

Definition isSecureContextOk (window : option Window) : bool :=
  match window with
  | Some w =>
      jseq (protocol w) (str "https:")
      || jseq (hostname w) (str "localhost")
      || jseq (hostname w) (str "127.0.0.1")
  | None => false
  end.

(** [answeredOnce.has(i)]. *)
Definition has (i : nat) (s : gset nat) : bool := bool_decide (i ∈ s).

Inductive effect :=
| Toast (title : jsstring) (description : option jsstring) (destructive : bool)
| OnNext (answers : list Answer)
| RecognitionNew
| RecognitionStart
| RecognitionStop
| GetUserMedia
| MediaRecorderNew
| MediaRecorderStart (timeslice : Z)
| MediaRecorderStop
| WebSocketNew (url : jsstring)
| WebSocketSendText (data : jsstring)
| WebSocketSendChunk
| WebSocketClose
| FetchTechnicalQuestions (countRole countResume : Z).

(** One [SpeechRecognitionResult]: its [isFinal] flag and the transcript of
    its first alternative. *)
Record RecognitionResult := {
  isFinal : bool;
  transcript0 : jsstring
}.

(** A [SpeechRecognitionEvent]. *)
Record RecognitionEvent := {
  resultIndex : nat;
  results : list RecognitionResult
}.

(** [MessageEvent.data]: a string, or binary data. *)
Inductive MessageData :=
| TextData (s : jsstring)
| BinaryData.

(** How the asynchronous set-up of the socket transport goes: the failures
    are the rejected [getUserMedia], the throwing [MediaRecorder] constructor
    and the throwing [WebSocket] constructor. *)
Inductive ws_setup := MicrophoneRejected | RecorderThrows | SocketThrows | SetupOk.

(** What the browser answers to a start attempt. *)
Record start_oracle := {
  start_throws : bool;
  setup : ws_setup
}.

(** The [useEffect] that requests the questions, and how it settles: with a
    response that has a [questions] list or none, or with a rejection. *)
Definition fetchQs_request : list effect := [FetchTechnicalQuestions 7 8].

Definition fetchQs_settle (st : state) (resp : option (option (list jsstring))) : state :=
  let qs := match resp with
            | Some (Some qs) => qs
            | Some None => []
            | None => []
            end in
  {| currentQuestionIndex := currentQuestionIndex st; answers := answers st;
     currentAnswer := currentAnswer st; isRecording := isRecording st;
     answeredOnce := answeredOnce st; transcript := transcript st;
     interim := interim st; questions := qs; isLoading := false;
     recognitionInstanceRef := recognitionInstanceRef st;
     mediaRecorderRef := mediaRecorderRef st; wsRef := wsRef st;
     isUsingWsRef := isUsingWsRef st |}.

(** State updates, one per setter or ref assignment. *)
Definition setCurrentQuestionIndex (i : nat) (st : state) : state :=
  {| currentQuestionIndex := i; answers := answers st;
     currentAnswer := currentAnswer st; isRecording := isRecording st;
     answeredOnce := answeredOnce st; transcript := transcript st;
     interim := interim st; questions := questions st; isLoading := isLoading st;
     recognitionInstanceRef := recognitionInstanceRef st;
     mediaRecorderRef := mediaRecorderRef st; wsRef := wsRef st;
     isUsingWsRef := isUsingWsRef st |}.

Definition setAnswers (a : list Answer) (st : state) : state :=
  {| currentQuestionIndex := currentQuestionIndex st; answers := a;
     currentAnswer := currentAnswer st; isRecording := isRecording st;
     answeredOnce := answeredOnce st; transcript := transcript st;
     interim := interim st; questions := questions st; isLoading := isLoading st;
     recognitionInstanceRef := recognitionInstanceRef st;
     mediaRecorderRef := mediaRecorderRef st; wsRef := wsRef st;
     isUsingWsRef := isUsingWsRef st |}.

Definition setCurrentAnswer (a : jsstring) (st : state) : state :=
  {| currentQuestionIndex := currentQuestionIndex st; answers := answers st;
     currentAnswer := a; isRecording := isRecording st;
     answeredOnce := answeredOnce st; transcript := transcript st;
     interim := interim st; questions := questions st; isLoading := isLoading st;
     recognitionInstanceRef := recognitionInstanceRef st;
     mediaRecorderRef := mediaRecorderRef st; wsRef := wsRef st;
     isUsingWsRef := isUsingWsRef st |}.

Definition setIsRecording (b : bool) (st : state) : state :=
  {| currentQuestionIndex := currentQuestionIndex st; answers := answers st;
     currentAnswer := currentAnswer st; isRecording := b;
     answeredOnce := answeredOnce st; transcript := transcript st;
     interim := interim st; questions := questions st; isLoading := isLoading st;
     recognitionInstanceRef := recognitionInstanceRef st;
     mediaRecorderRef := mediaRecorderRef st; wsRef := wsRef st;
     isUsingWsRef := isUsingWsRef st |}.

Definition setAnsweredOnce (s : gset nat) (st : state) : state :=
  {| currentQuestionIndex := currentQuestionIndex st; answers := answers st;
     currentAnswer := currentAnswer st; isRecording := isRecording st;
     answeredOnce := s; transcript := transcript st;
     interim := interim st; questions := questions st; isLoading := isLoading st;
     recognitionInstanceRef := recognitionInstanceRef st;
     mediaRecorderRef := mediaRecorderRef st; wsRef := wsRef st;
     isUsingWsRef := isUsingWsRef st |}.

Definition setTranscript (t : jsstring) (st : state) : state :=
  {| currentQuestionIndex := currentQuestionIndex st; answers := answers st;
     currentAnswer := currentAnswer st; isRecording := isRecording st;
     answeredOnce := answeredOnce st; transcript := t;
     interim := interim st; questions := questions st; isLoading := isLoading st;
     recognitionInstanceRef := recognitionInstanceRef st;
     mediaRecorderRef := mediaRecorderRef st; wsRef := wsRef st;
     isUsingWsRef := isUsingWsRef st |}.

Definition setInterim (t : jsstring) (st : state) : state :=
  {| currentQuestionIndex := currentQuestionIndex st; answers := answers st;
     currentAnswer := currentAnswer st; isRecording := isRecording st;
     answeredOnce := answeredOnce st; transcript := transcript st;
     interim := t; questions := questions st; isLoading := isLoading st;
     recognitionInstanceRef := recognitionInstanceRef st;
     mediaRecorderRef := mediaRecorderRef st; wsRef := wsRef st;
     isUsingWsRef := isUsingWsRef st |}.

Definition setRecognitionInstanceRef (b : bool) (st : state) : state :=
  {| currentQuestionIndex := currentQuestionIndex st; answers := answers st;
     currentAnswer := currentAnswer st; isRecording := isRecording st;
     answeredOnce := answeredOnce st; transcript := transcript st;
     interim := interim st; questions := questions st; isLoading := isLoading st;
     recognitionInstanceRef := b;
     mediaRecorderRef := mediaRecorderRef st; wsRef := wsRef st;
     isUsingWsRef := isUsingWsRef st |}.

Definition setMediaRecorderRef (b : bool) (st : state) : state :=
  {| currentQuestionIndex := currentQuestionIndex st; answers := answers st;
     currentAnswer := currentAnswer st; isRecording := isRecording st;
     answeredOnce := answeredOnce st; transcript := transcript st;
     interim := interim st; questions := questions st; isLoading := isLoading st;
     recognitionInstanceRef := recognitionInstanceRef st;
     mediaRecorderRef := b; wsRef := wsRef st;
     isUsingWsRef := isUsingWsRef st |}.

Definition setWsRef (b : bool) (st : state) : state :=
  {| currentQuestionIndex := currentQuestionIndex st; answers := answers st;
     currentAnswer := currentAnswer st; isRecording := isRecording st;
     answeredOnce := answeredOnce st; transcript := transcript st;
     interim := interim st; questions := questions st; isLoading := isLoading st;
     recognitionInstanceRef := recognitionInstanceRef st;
     mediaRecorderRef := mediaRecorderRef st; wsRef := b;
     isUsingWsRef := isUsingWsRef st |}.

Definition setIsUsingWsRef (b : bool) (st : state) : state :=
  {| currentQuestionIndex := currentQuestionIndex st; answers := answers st;
     currentAnswer := currentAnswer st; isRecording := isRecording st;
     answeredOnce := answeredOnce st; transcript := transcript st;
     interim := interim st; questions := questions st; isLoading := isLoading st;
     recognitionInstanceRef := recognitionInstanceRef st;
     mediaRecorderRef := mediaRecorderRef st; wsRef := wsRef st;
     isUsingWsRef := b |}.

Section Handlers.

(** [COUNT_ROLE], the number of role-based questions; the component fixes it
    (see [COUNT_ROLE_source] below). *)
Variable COUNT_ROLE : nat.

(** The browser's [window] and the imported [BACKEND_URL]. *)
Variable w : option Window.
Variable BACKEND_URL : jsstring.

Definition toast (title description : string) (destructive : bool) : effect :=
  Toast (str title) (Some (str description)) destructive.

(** [BACKEND_URL.replace(/^https?/, proto) + "/ws/stt"]. *)
Definition wsUrl : jsstring :=
  let proto := if startsWith (str "https") BACKEND_URL then str "wss" else str "ws" in
  (if startsWith (str "https") BACKEND_URL then proto ++ drop 5 BACKEND_URL
   else if startsWith (str "http") BACKEND_URL then proto ++ drop 4 BACKEND_URL
   else BACKEND_URL) ++ str "/ws/stt".

(** [startWSRecorder], with its awaited microphone request taken together
    with what follows it. The handlers it installs are [ws_onopen],
    [ws_onmessage], [ws_onclose], [mr_ondataavailable] and [mr_onerror]. *)
Definition startWSRecorder (st : state) (o : start_oracle) : state * list effect :=
  let failed := toast "Failed to start recording" "Allow microphone access and try again." true in
  if isUsingWsRef st then (st, [])
  else match setup o with
       | MicrophoneRejected => (st, [GetUserMedia; failed])
       | RecorderThrows => (st, [GetUserMedia; MediaRecorderNew; failed])
       | SocketThrows =>
           (setMediaRecorderRef true st,
            [GetUserMedia; MediaRecorderNew; WebSocketNew wsUrl; failed])
       | SetupOk =>
           (setWsRef true (setMediaRecorderRef true st),
            [GetUserMedia; MediaRecorderNew; WebSocketNew wsUrl])
       end.

Definition startSTT (st : state) (o : start_oracle) : state * list effect :=
  if negb (recognitionCtor w) then
    if negb (isSecureContextOk w) then
      (st, [toast "Insecure context" "Speech recording requires HTTPS." true])
    else startWSRecorder st o
  else if negb (isSecureContextOk w) then
    (st, [toast "Insecure context" "Speech recognition requires HTTPS." true])
  else
    let fx0 := if recognitionInstanceRef st then [RecognitionStop] else [] in
    let st1 := setInterim [] (setTranscript [] (setRecognitionInstanceRef true st)) in
    if start_throws o then
      (st1, fx0 ++ [RecognitionNew; RecognitionStart;
                    toast "Failed to start STT" "Try again or refresh." true])
    else
      (setIsRecording true st1,
       fx0 ++ [RecognitionNew; RecognitionStart;
               toast "Recording started" "Speak your answer" false]).

(** The loop of [rec.onresult]: the transcripts of the results from
    [resultIndex] on, concatenated, the final ones and the others apart. *)
Fixpoint collect (rs : list RecognitionResult) (finalText interimText : jsstring)
  : jsstring * jsstring :=
  match rs with
  | [] => (finalText, interimText)
  | res :: rest =>
      if isFinal res then collect rest (finalText ++ transcript0 res) interimText
      else collect rest finalText (interimText ++ transcript0 res)
  end.

Definition rec_onresult (st : state) (event : RecognitionEvent) : state :=
  let '(finalText, interimText) := collect (drop (resultIndex event) (results event)) [] [] in
  let st1 :=
    if truthy finalText then
      setTranscript ((if truthy (transcript st) then transcript st ++ str " " else [])
                     ++ trim finalText) st
    else st in
  setInterim (trim interimText) st1.

Definition rec_onerror (st : state) (error : option jsstring) : state * list effect :=
  let err := or_else (default [] error) (str "unknown") in
  let description :=
    if jseq err (str "not-allowed") then str "Microphone access denied. Please allow mic permissions."
    else if jseq err (str "no-speech") then str "No speech detected. Try speaking closer to the mic."
    else if jseq err (str "audio-capture") then str "No microphone found. Check your input device."
    else str "Please retry or refresh the page." in
  (setIsRecording false st,
   [Toast (str "Speech recognition error: " ++ err) (Some description) true]).

Definition rec_onend (st : state) : state := setIsRecording false st.

Definition ws_onopen (st : state) : state * list effect :=
  (setIsUsingWsRef true (setIsRecording true st),
   [MediaRecorderStart 1000; toast "Recording started" "Speak your answer" false]).

Definition ws_onmessage (st : state) (data : MessageData) : state :=
  let txt := match data with TextData s => s | BinaryData => [] end in
  setIsUsingWsRef false (setIsRecording false (setTranscript txt st)).

Definition ws_onclose (st : state) : state :=
  setIsUsingWsRef false (setIsRecording false st).

(** [mr.ondataavailable]: [nonempty] is [ev.data && ev.data.size > 0],
    [ws_open] is [ws && ws.readyState === WebSocket.OPEN]. *)
Definition mr_ondataavailable (st : state) (nonempty ws_open : bool) : state * list effect :=
  (st, if nonempty && ws_open then [WebSocketSendChunk] else []).

Definition mr_onerror (st : state) : state * list effect :=
  (setIsRecording false st, [toast "Recording failed" "Media recorder error" true]).

Definition stopWSRecorder (st : state) : state * list effect :=
  let fx :=
    (if mediaRecorderRef st then [MediaRecorderStop] else [])
    ++ (if wsRef st then [WebSocketSendText (str "__end__"); WebSocketClose] else []) in
  (setAnsweredOnce ({[currentQuestionIndex st]} ∪ answeredOnce st)
     (setIsRecording false
        (setIsUsingWsRef false (setWsRef false (setMediaRecorderRef false st)))),
   fx ++ [Toast (str "Recording stopped") None false]).

Definition stopSTT (st : state) : state * list effect :=
  if isUsingWsRef st then stopWSRecorder st
  else
    (setAnsweredOnce ({[currentQuestionIndex st]} ∪ answeredOnce st)
       (setIsRecording false st),
     (if recognitionInstanceRef st then [RecognitionStop] else [])
     ++ [Toast (str "Recording stopped") None false]).

(** [(transcript + (interim ? (transcript ? " " : "") + interim : "")).trim()],
    the expression [handleNext] and the answer field share. *)
Definition composedTranscript (st : state) : jsstring :=
  trim (transcript st
        ++ (if truthy (interim st)
            then (if truthy (transcript st) then str " " else []) ++ interim st
            else [])).

(** The [value] of the answer field. *)
Definition textareaValue (st : state) : jsstring :=
  or_else (composedTranscript st) (currentAnswer st).

Definition handleNext (st : state) : state * list effect :=
  let finalAnswer := composedTranscript st in
  let newAnswer :=
    {| question := questions st !! currentQuestionIndex st;
       answer := or_else finalAnswer (currentAnswer st);
       type := if (currentQuestionIndex st <? COUNT_ROLE)%nat then role else resume |} in
  let updatedAnswers := answers st ++ [newAnswer] in
  let st1 := setAnswers updatedAnswers st in
  if Z.of_nat (currentQuestionIndex st) <? Z.of_nat (length (questions st)) - 1 then
    (setAnsweredOnce ({[currentQuestionIndex st]} ∪ answeredOnce st)
       (setInterim [] (setTranscript []
          (setIsRecording false
             (setCurrentQuestionIndex (currentQuestionIndex st + 1) st1)))),
     [])
  else
    (st1, [OnNext updatedAnswers]).

Definition handlePrevious (st : state) : state :=
  if (0 <? currentQuestionIndex st)%nat then
    setCurrentAnswer
      (or_else (default [] (answer <$> answers st !! (currentQuestionIndex st - 1)%nat)) [])
      (setCurrentQuestionIndex (currentQuestionIndex st - 1) st)
  else st.

Definition toggleRecording (st : state) (o : start_oracle) : state * list effect :=
  if has (currentQuestionIndex st) (answeredOnce st) then (st, [])
  else if isRecording st then stopSTT st else startSTT st o.

(** The events the component reacts to once mounted. *)
Inductive event :=
| QuestionsSettled (resp : option (option (list jsstring)))
| ClickRecord (o : start_oracle)
| ClickNext
| ClickPrevious
| RecOnResult (e : RecognitionEvent)
| RecOnError (error : option jsstring)
| RecOnEnd
| WsOnOpen
| WsOnMessage (data : MessageData)
| WsOnClose
| MrOnDataAvailable (nonempty ws_open : bool)
| MrOnError.

Definition step (st : state) (e : event) : state * list effect :=
  match e with
  | QuestionsSettled resp => (fetchQs_settle st resp, [])
  | ClickRecord o => toggleRecording st o
  | ClickNext => handleNext st
  | ClickPrevious => (handlePrevious st, [])
  | RecOnResult ev => (rec_onresult st ev, [])
  | RecOnError error => rec_onerror st error
  | RecOnEnd => (rec_onend st, [])
  | WsOnOpen => ws_onopen st
  | WsOnMessage data => (ws_onmessage st data, [])
  | WsOnClose => (ws_onclose st, [])
  | MrOnDataAvailable nonempty ws_open => mr_ondataavailable st nonempty ws_open
  | MrOnError => mr_onerror st
  end.

(** A run: the events in order, the effects accumulated. *)
Fixpoint run (st : state) (es : list event) : state * list effect :=
  match es with
  | [] => (st, [])
  | e :: rest =>
      let '(st1, fx1) := step st e in
      let '(st2, fx2) := run st1 rest in
      (st2, fx1 ++ fx2)
  end.

End Handlers.

(** The value the component gives [COUNT_ROLE]. *)
Definition COUNT_ROLE_source : nat := 7.

(** The answer sequences handed to [onNext], in order of the calls. *)
Fixpoint onNext_calls (fx : list effect) : list (list Answer) :=
  match fx with
  | [] => []
  | OnNext a :: rest => a :: onNext_calls rest
  | _ :: rest => onNext_calls rest
  end.

(** ** Vocabulary of the properties *)

(** The transcripts of the finalized results of an event, from its
    [resultIndex] on, in order; and those of its other results. *)
Definition finalFragments (e : RecognitionEvent) : list jsstring :=
  transcript0 <$> List.filter isFinal (drop (resultIndex e) (results e)).

Definition interimFragments (e : RecognitionEvent) : list jsstring :=
  transcript0 <$> List.filter (fun r => negb (isFinal r)) (drop (resultIndex e) (results e)).

(** A native recognition session: the result events in arrival order. *)
Definition recognize (st : state) (es : list RecognitionEvent) : state :=
  foldl rec_onresult st es.

(** The state [startSTT] leaves for the result events: both transcripts
    cleared. *)
Definition cleared (st : state) : state := setInterim [] (setTranscript [] st).

(** The committed transcript as the specification words it: all finalized
    fragments, in arrival order, joined by single spaces. *)
Definition spec_committed (es : list RecognitionEvent) : jsstring :=
  join (str " ") (es ≫= finalFragments).

(** The committed transcript in closed form: per event the finalized
    fragments concatenated; of the events where that text is not empty, the
    trimmed texts, joined by single spaces once a first non-empty one has
    arrived. *)
Definition finalTexts (es : list RecognitionEvent) : list jsstring :=
  trim <$> List.filter truthy ((fun e => concat (finalFragments e)) <$> es).

(** The committed transcript after a list of trimmed final texts arrived,
    from the transcript [t]. *)
Definition glue (t : jsstring) (pieces : list jsstring) : jsstring :=
  foldl (fun prev p => (if truthy prev then prev ++ str " " else []) ++ p) t pieces.

Fixpoint dropEmpty (l : list jsstring) : list jsstring :=
  match l with
  | [] :: rest => dropEmpty rest
  | _ => l
  end.

Definition committed (es : list RecognitionEvent) : jsstring :=
  join (str " ") (dropEmpty (finalTexts es)).


(** Whether a handler's effects touch the native recognizer, or the
    microphone, recorder and socket of the relay. *)
Definition is_native_effect (e : effect) : bool :=
  match e with
  | RecognitionNew | RecognitionStart | RecognitionStop => true
  | _ => false
  end.

Definition is_relay_effect (e : effect) : bool :=
  match e with
  | GetUserMedia | MediaRecorderNew | MediaRecorderStart _ | MediaRecorderStop
  | WebSocketNew _ | WebSocketSendText _ | WebSocketSendChunk | WebSocketClose => true
  | _ => false
  end.

Definition is_error_toast (e : effect) : bool :=
  match e with
  | Toast _ _ true => true
  | _ => false
  end.

(** ** Sample inputs *)

Definition chrome : option Window :=
  Some {| webkitSpeechRecognition := true; SpeechRecognition := false;
          protocol := str "https:"; hostname := str "interview.example.com" |}.

Definition firefox : option Window :=
  Some {| webkitSpeechRecognition := false; SpeechRecognition := false;
          protocol := str "https:"; hostname := str "interview.example.com" |}.

Definition plain_http : option Window :=
  Some {| webkitSpeechRecognition := true; SpeechRecognition := false;
          protocol := str "http:"; hostname := str "interview.example.com" |}.

Definition backend : jsstring := str "https://api.example.com".

Definition Q1 : jsstring := str "What is a closure?".
Definition Q2 : jsstring := str "Describe your last project.".

Definition ok : start_oracle := {| start_throws := false; setup := SetupOk |}.

(** The component once the two questions have arrived. *)
Definition loaded : state := fetchQs_settle initial (Some (Some [Q1; Q2])).

(** A single finalized result carrying [s]. *)
Definition said (s : string) : RecognitionEvent :=
  {| resultIndex := 0; results := [{| isFinal := true; transcript0 := str s |}] |}.

(** One event with two finalized results. *)
Definition said_a_b : RecognitionEvent :=
  {| resultIndex := 0;
     results := [{| isFinal := true; transcript0 := str "a" |};
                 {| isFinal := true; transcript0 := str "b" |}] |}.

(** The first question recorded and the recording stopped. *)
Definition first_recorded : state :=
  fst (run COUNT_ROLE_source chrome backend loaded
         [ClickRecord ok; RecOnResult (said "first"); ClickRecord ok]).

(** ** The rest of the interview view *)

(** The label of the advance button. *)
Definition nextButtonLabel (st : state) : jsstring :=
  if Z.of_nat (currentQuestionIndex st) <? Z.of_nat (length (questions st)) - 1
  then str "Next Question" else str "Complete Technical Interview".

(** The [disabled] attribute of the retreat button. *)
Definition previousDisabled (st : state) : bool :=
  (currentQuestionIndex st =? 0)%nat.

(** The badge beside the question number. *)
Definition badge (st : state) : jsstring :=
  if (currentQuestionIndex st <? 7)%nat then str "Role-based" else str "Resume-based".

(** Runs in which the question list is not fetched again. *)
Definition no_refetch (es : list event) : bool :=
  forallb (fun e => match e with QuestionsSettled _ => false | _ => true end) es.

(** A state where the engine delivered the finalized text "partial" on the
    first question. *)
Definition heard_partial : state :=
  fst (run COUNT_ROLE_source chrome backend loaded
         [ClickRecord ok; RecOnResult (said "partial")]).

(** Three questions, the first answered "first" and advanced past. *)
Definition three_on_second : state :=
  fst (run COUNT_ROLE_source chrome backend
         (fetchQs_settle initial (Some (Some [Q1; Q2; Q1])))
         [ClickRecord ok; RecOnResult (said "first"); ClickRecord ok; ClickNext]).

(** The first question answered "first" and advanced past. *)
Definition on_second : state :=
  fst (run COUNT_ROLE_source chrome backend first_recorded [ClickNext]).


(** An answer that names a question of the list [qs]. *)
Definition asks_from (qs : list jsstring) (a : Answer) : bool :=
  match question a with
  | Some q => bool_decide (q ∈ qs)
  | None => false
  end.

(** Where the relay is the transport: the socket opened and the recorder
    then reported an error, on the first question. *)
Definition relay_recorder_failed : state :=
  fst (run COUNT_ROLE_source firefox backend loaded [ClickRecord ok; WsOnOpen; MrOnError]).

End TechnicalInterview.

(** * Properties *)

(** ** JavaScript primitives *)

Module JSFacts.

Lemma toInt32_small (z : Z) : - 2 ^ 31 <= z < 2 ^ 31 -> toInt32 z = z.
Proof.
  intros Hz. unfold toInt32.
  rewrite Z.mod_small by lia. lia.
Qed.

(** [(x * 16) | 0] for [x] in the unit interval is one of 0, ..., 15. *)
Lemma bitor0_nibble (x : Q) :
  (0 <= x)%Q -> (x < 1)%Q -> 0 <= bitor0 (x * 16) < 16.
Proof.
  destruct x as [n d]. unfold Qle, Qlt, bitor0. cbn.
  intros Hn Hd.
  assert (Hq : 0 <= Z.quot (n * 16) (Z.pos (d * 1)) < 16).
  { rewrite Z.quot_div_nonneg by lia.
    split.
    - apply Z.div_pos; lia.
    - apply Z.div_lt_upper_bound; lia. }
  rewrite toInt32_small; lia.
Qed.

Lemma nibble_cases (r : Z) :
  0 <= r < 16 ->
  r = 0 \/ r = 1 \/ r = 2 \/ r = 3 \/ r = 4 \/ r = 5 \/ r = 6 \/ r = 7 \/
  r = 8 \/ r = 9 \/ r = 10 \/ r = 11 \/ r = 12 \/ r = 13 \/ r = 14 \/ r = 15.
Proof. lia. Qed.

(** A nibble prints as a single hexadecimal digit. *)
Lemma toString16_nibble (r : Z) :
  0 <= r < 16 -> exists d, toString16 r = [d] /\ is_hex d = true.
Proof.
  intros Hr. destruct (nibble_cases r Hr) as
    [->|[->|[->|[->|[->|[->|[->|[->|[->|[->|[->|[->|[->|[->|[->| ->]]]]]]]]]]]]]]];
    eexists; split; reflexivity.
Qed.

(** [(r & 0x3) | 0x8] prints as one of 8, 9, a, b. *)
Lemma toString16_variant (r : Z) :
  0 <= r < 16 ->
  exists d, toString16 (Z.lor (Z.land r 3) 8) = [d]
            /\ ((d =? 56) || (d =? 57) || (d =? 97) || (d =? 98))%N = true.
Proof.
  intros Hr. destruct (nibble_cases r Hr) as
    [->|[->|[->|[->|[->|[->|[->|[->|[->|[->|[->|[->|[->|[->|[->| ->]]]]]]]]]]]]]]];
    eexists; split; reflexivity.
Qed.

Lemma includes_nonempty (needle hay : jsstring) :
  truthy needle = true -> includes needle hay = true -> truthy hay = true.
Proof.
  destruct hay as [|c hay]; [|reflexivity].
  destruct needle; cbn; intros; congruence.
Qed.

End JSFacts.

(** ** The upload step *)

Module UploadFacts.

Import ResumeUpload JSFacts.

Lemma uuidReplacer_char (c : N) (x : Q) :
  in_unit_interval x ->
  ((c =? 120) || (c =? 121))%N = true ->
  exists d, uuidReplacer c x = [d] /\ replaced c d.
Proof.
  intros [H0 H1] Hc. unfold uuidReplacer, replaced.
  pose proof (bitor0_nibble x H0 H1) as Hr.
  destruct (c =? 120)%N eqn:Hx.
  - apply toString16_nibble, Hr.
  - cbn in Hc. rewrite Hc. apply toString16_variant, Hr.
Qed.

Lemma replace_xy_pointwise (rnd : random_source) :
  (forall k, in_unit_interval (rnd k)) ->
  forall tpl k, Forall2 replaced tpl (fst (replace_xy tpl rnd k)).
Proof.
  intros Hrnd tpl. induction tpl as [|c t IH]; intros k; cbn.
  - constructor.
  - destruct ((c =? 120) || (c =? 121))%N eqn:Hc.
    + destruct (uuidReplacer_char c (rnd k) (Hrnd k) Hc) as (d & -> & Hd).
      specialize (IH (S k)). destruct (replace_xy t rnd (S k)) as [rest k'].
      cbn in *. constructor; assumption.
    + specialize (IH k). destruct (replace_xy t rnd k) as [rest k'].
      cbn in *. constructor; [|assumption].
      unfold replaced. apply orb_false_elim in Hc as [-> ->]. reflexivity.
Qed.

(** A string that matches the template position by position has the layout. *)
Lemma template_layout (s : jsstring) :
  Forall2 replaced uuidTemplate s -> is_uuid_v4 s = true.
Proof.
  intros H.
  let t := eval vm_compute in uuidTemplate in change uuidTemplate with t in H.
  repeat match goal with
         | H : Forall2 _ (_ :: _) _ |- _ =>
             apply Forall2_cons_inv_l in H as (? & ? & ? & H & ->)
         | H : Forall2 _ [] _ |- _ => apply Forall2_nil_inv_l in H as ->
         end.
  unfold replaced in *; cbn in *; subst.
  match goal with
  | H : (_ || _)%bool = true |- _ =>
      rewrite !orb_true_iff, !N.eqb_eq in H;
      destruct H as [[[-> | ->] | ->] | ->]
  end;
    unfold is_uuid_v4; cbn;
    repeat match goal with
           | H : _ = true |- _ => rewrite H; clear H
           end;
    reflexivity.
Qed.

(** C9. Whatever [Math.random] draws from the unit interval, the session
    identifier [generateUUID] returns has 36 characters in the grouped
    hexadecimal layout 8-4-4-4-12 with hyphens between the groups, its version
    nibble is 4 and its variant nibble is one of 8, 9, a, b. *)
Theorem generateUUID_layout (rnd : random_source) :
  (forall k, in_unit_interval (rnd k)) ->
  is_uuid_v4 (generateUUID rnd) = true.
Proof.
  intros Hrnd. apply template_layout, replace_xy_pointwise, Hrnd.
Qed.

Lemma generateUUID_layout_witness :
  (forall k, in_unit_interval (draws_of (5 # 8) k))
  /\ is_uuid_v4 (generateUUID (draws_of (5 # 8))) = true.
Proof.
  assert (H : forall k, in_unit_interval (draws_of (5 # 8) k)).
  { intros k. split; unfold draws_of, Qle, Qlt; cbn; lia. }
  split; [exact H | exact (generateUUID_layout _ H)].
Defined.

(** C8. A file whose declared type does not include "pdf" (the empty type
    among them) is rejected: the handler shows the destructive toast
    "Invalid file type", performs no network call and returns the state it
    was given, however the random draws and the extraction call would go. *)
Theorem handleFileUpload_rejects_non_pdf
    (st : state) (file : File) (rnd : random_source) (o : extract_outcome) :
  includes (str "pdf") (type file) = false ->
  handleFileUpload st file rnd o
  = (st, [Toast (str "Invalid file type") (str "Please upload a PDF file") true])
  /\ existsb is_error_toast (snd (handleFileUpload st file rnd o)) = true
  /\ existsb is_network_call (snd (handleFileUpload st file rnd o)) = false
  /\ fst (handleFileUpload st file rnd o) = st.
Proof.
  intros Hpdf.
  assert (E : handleFileUpload st file rnd o
              = (st, [Toast (str "Invalid file type") (str "Please upload a PDF file") true])).
  { unfold handleFileUpload, handleFileUpload_begin.
    rewrite Hpdf, orb_true_r. reflexivity. }
  rewrite E. repeat split; reflexivity.
Qed.

Lemma handleFileUpload_rejects_non_pdf_witness :
  includes (str "pdf") (type untyped_file) = false
  /\ fst (handleFileUpload initial untyped_file (draws_of 0) (Resolved (str "3"))) = initial.
Proof.
  split; [reflexivity|].
  apply (handleFileUpload_rejects_non_pdf initial untyped_file (draws_of 0)
           (Resolved (str "3"))).
  reflexivity.
Defined.

(** C5 as written fails: after the failed upload of a PDF file from the
    initial state, the component holds that file and a fresh session
    identifier. *)
Lemma failed_upload_changes_state :
  ~ unchanged_by_failed_upload initial pdf_file (draws_of 0).
Proof.
  unfold unchanged_by_failed_upload. intros (Hfile & _). discriminate Hfile.
Qed.

(** C5, amended. When the extraction call fails for an accepted file, the
    destructive toast "Error processing resume" is shown, the status text
    is the one from before the upload and the processing flag is off again,
    while the stored file and the session identifier are those of the failed
    attempt; from that state the same file is accepted again, a new request
    going out under a newly generated identifier. *)
Theorem handleFileUpload_failure
    (st : state) (file : File) (rnd rnd' : random_source) (o' : extract_outcome) :
  includes (str "pdf") (type file) = true ->
  let st' := fst (handleFileUpload st file rnd Rejected) in
  handleFileUpload st file rnd Rejected
  = ({| resumeFile := Some file; resumeContent := resumeContent st;
        isProcessing := false; sessionId := generateUUID rnd |},
     [UploadResumeExtract (generateUUID rnd) file;
      Toast (str "Error processing resume") (str "Please try uploading again") true])
  /\ resumeContent st' = resumeContent st
  /\ isProcessing st' = false
  /\ exists fx, snd (handleFileUpload st' file rnd' o')
                = UploadResumeExtract (generateUUID rnd') file :: fx.
Proof.
  intros Hpdf.
  assert (Hty : truthy (type file) = true)
    by (apply (includes_nonempty (str "pdf")); [reflexivity | exact Hpdf]).
  unfold handleFileUpload, handleFileUpload_begin. rewrite Hpdf, Hty. cbn.
  repeat split.
  destruct o'; eexists; reflexivity.
Qed.

Lemma handleFileUpload_failure_witness :
  includes (str "pdf") (type pdf_file) = true
  /\ isProcessing (fst (handleFileUpload initial pdf_file (draws_of 0) Rejected)) = false.
Proof.
  split; [reflexivity|].
  apply (handleFileUpload_failure initial pdf_file (draws_of 0) (draws_of (1 # 2)) Rejected).
  reflexivity.
Defined.

End UploadFacts.

(** ** The interview step *)

Module InterviewFacts.

Import TechnicalInterview JSFacts.

(** *** The socket relay's inbound message *)

(** C10. Any inbound message of the socket, text or not, ends the recording
    state ([isRecording] and the relay flag are off afterwards) and performs
    no effect; the committed transcript afterwards is the payload of a text
    message and the empty string for any other message, whatever the
    transcript was before; every other cell of the state is kept. *)
Theorem ws_onmessage_replaces_transcript
    (COUNT_ROLE : nat) (w : option Window) (url : jsstring) (st : state) (data : MessageData) :
  let st' := ws_onmessage st data in
  step COUNT_ROLE w url st (WsOnMessage data) = (st', [])
  /\ isRecording st' = false
  /\ isUsingWsRef st' = false
  /\ transcript st' = match data with TextData s => s | BinaryData => [] end
  /\ (forall t, ws_onmessage (setTranscript t st) data = st')
  /\ st' = setIsUsingWsRef false (setIsRecording false (setTranscript (transcript st') st)).
Proof.
  destruct data; repeat split.
Qed.

(** *** Transport selection *)

Lemma startWSRecorder_no_native (url : jsstring) (st : state) (o : start_oracle) :
  existsb is_native_effect (snd (startWSRecorder url st o)) = false.
Proof.
  unfold startWSRecorder. destruct (isUsingWsRef st); [reflexivity|].
  destruct (setup o); reflexivity.
Qed.

(** C6 as written fails where the relay flag is still set: without the
    native capability and in a secure context, once the socket has opened and
    the recorder has reported an error, a start attempt touches nothing of
    the relay and changes nothing. *)
Lemma relay_start_silent_when_flag_set :
  recognitionCtor firefox = false
  /\ isSecureContextOk firefox = true
  /\ startSTT firefox backend relay_recorder_failed ok = (relay_recorder_failed, [])
  /\ ~ existsb is_relay_effect (snd (startSTT firefox backend relay_recorder_failed ok))
       = true.
Proof. vm_compute. repeat split; discriminate. Qed.

(** C6, amended. What a start attempt does depends on the window only
    through the pair (native capability present, secure context). With the
    capability and a secure context the native recognizer is created, stored
    and started, recording being on unless the start throws, and nothing of
    the relay is touched. Without the capability but in a secure context the
    attempt is [startWSRecorder], the socket relay, and the native recognizer
    is not touched: unless the relay flag is still set, in which case the
    attempt does nothing, the microphone is requested first and, when the
    set-up succeeds, a recorder and a socket to the relay address are created
    and stored. In an insecure context, with or without the capability, the
    attempt shows the destructive toast "Insecure context" and returns the
    state unchanged. *)
Theorem startSTT_transport_selection
    (w : option Window) (url : jsstring) (st : state) (o : start_oracle) :
  (forall w', recognitionCtor w' = recognitionCtor w ->
              isSecureContextOk w' = isSecureContextOk w ->
              startSTT w' url st o = startSTT w url st o)
  /\ (recognitionCtor w = true -> isSecureContextOk w = true ->
      In RecognitionNew (snd (startSTT w url st o))
      /\ In RecognitionStart (snd (startSTT w url st o))
      /\ existsb is_relay_effect (snd (startSTT w url st o)) = false
      /\ recognitionInstanceRef (fst (startSTT w url st o)) = true
      /\ (start_throws o = false -> isRecording (fst (startSTT w url st o)) = true))
  /\ (recognitionCtor w = false -> isSecureContextOk w = true ->
      startSTT w url st o = startWSRecorder url st o
      /\ existsb is_native_effect (snd (startSTT w url st o)) = false
      /\ (isUsingWsRef st = true -> startSTT w url st o = (st, []))
      /\ (isUsingWsRef st = false ->
          head (snd (startSTT w url st o)) = Some GetUserMedia
          /\ (setup o = SetupOk ->
              startSTT w url st o
              = (setWsRef true (setMediaRecorderRef true st),
                 [GetUserMedia; MediaRecorderNew; WebSocketNew (wsUrl url)]))))
  /\ (isSecureContextOk w = false ->
      fst (startSTT w url st o) = st
      /\ exists d, snd (startSTT w url st o)
                   = [Toast (str "Insecure context") (Some d) true]).
Proof.
  split; [|split; [|split]].
  - intros w' Hc Hs. unfold startSTT. rewrite Hc, Hs. reflexivity.
  - intros Hc Hs. unfold startSTT. rewrite Hc, Hs. cbn.
    destruct (start_throws o), (recognitionInstanceRef st); cbn;
      repeat split; try discriminate; tauto.
  - intros Hc Hs. unfold startSTT. rewrite Hc, Hs. cbn.
    split; [reflexivity|]. split; [apply startWSRecorder_no_native|].
    unfold startWSRecorder. split.
    + intros ->. reflexivity.
    + intros ->. split; [destruct (setup o); reflexivity | intros ->; reflexivity].
  - intros Hs. unfold startSTT. rewrite Hs.
    destruct (recognitionCtor w); cbn; split; try reflexivity; eexists; reflexivity.
Qed.

Lemma startSTT_transport_selection_witness :
  (recognitionCtor chrome = true /\ isSecureContextOk chrome = true
   /\ start_throws ok = false
   /\ isRecording (fst (startSTT chrome backend loaded ok)) = true)
  /\ (recognitionCtor firefox = false /\ isSecureContextOk firefox = true
      /\ isUsingWsRef loaded = false /\ setup ok = SetupOk
      /\ startSTT firefox backend loaded ok
         = (setWsRef true (setMediaRecorderRef true loaded),
            [GetUserMedia; MediaRecorderNew; WebSocketNew (wsUrl backend)]))
  /\ (recognitionCtor firefox = false /\ isSecureContextOk firefox = true
      /\ isUsingWsRef relay_recorder_failed = true
      /\ startSTT firefox backend relay_recorder_failed ok = (relay_recorder_failed, []))
  /\ (isSecureContextOk plain_http = false
      /\ fst (startSTT plain_http backend loaded ok) = loaded).
Proof.
  split; [|split; [|split]].
  - split; [reflexivity|]. split; [reflexivity|]. split; [reflexivity|].
    apply (startSTT_transport_selection chrome backend loaded ok); reflexivity.
  - split; [reflexivity|]. split; [reflexivity|]. split; [reflexivity|].
    split; [reflexivity|].
    apply (startSTT_transport_selection firefox backend loaded ok); reflexivity.
  - split; [reflexivity|]. split; [reflexivity|]. split; [reflexivity|].
    apply (startSTT_transport_selection firefox backend relay_recorder_failed ok);
      reflexivity.
  - split; [reflexivity|].
    apply (startSTT_transport_selection plain_http backend loaded ok); reflexivity.
Defined.

(** *** Advancing and retreating *)

(** What [handleNext] appends: the question under the index, the composed
    transcript or else the retained answer, and the tag of the index. *)
Lemma handleNext_appends (COUNT_ROLE : nat) (st : state) :
  answers (fst (handleNext COUNT_ROLE st))
  = answers st
    ++ [{| question := questions st !! currentQuestionIndex st;
           answer := or_else (composedTranscript st) (currentAnswer st);
           type := if (currentQuestionIndex st <? COUNT_ROLE)%nat then role else resume |}].
Proof.
  unfold handleNext.
  destruct (Z.of_nat (currentQuestionIndex st) <? Z.of_nat (length (questions st)) - 1);
    reflexivity.
Qed.





(** C1. On the two questions, advancing, retreating, and advancing twice
    again ends in one call of the completion callback, and the sequence it
    receives has three answers: the retreat was followed by a second answer
    for the first question, appended after the first. *)
Theorem retreat_then_complete_hands_over_three_answers :
  length (questions loaded) = 2%nat
  /\ map (fun a => (length a, map question a))
       (onNext_calls
          (snd (run COUNT_ROLE_source chrome backend loaded
                  [ClickNext; ClickPrevious; ClickNext; ClickNext])))
     = [(3%nat, [Some Q1; Some Q1; Some Q2])].
Proof. vm_compute. split; reflexivity. Qed.

(** A retreat leaves the answer sequence as it is. *)
Lemma handlePrevious_answers (st : state) :
  answers (handlePrevious st) = answers st.
Proof.
  unfold handlePrevious. destruct (0 <? currentQuestionIndex st)%nat; reflexivity.
Qed.

(** A retreat from question [i + 1] stores the answer at position [i] of the
    sequence as the retained answer text. *)
Lemma handlePrevious_restores (st : state) (i : nat) (a : Answer) :
  currentQuestionIndex st = S i ->
  answers st !! i = Some a ->
  currentQuestionIndex (handlePrevious st) = i
  /\ currentAnswer (handlePrevious st) = answer a.
Proof.
  intros Hi Ha. unfold handlePrevious. rewrite Hi. cbn.
  rewrite Nat.sub_0_r, Ha. cbn. split; [reflexivity|].
  unfold or_else. destruct (answer a); reflexivity.
Qed.

(** The answer field shows the retained answer text when nothing has been
    transcribed. *)
Lemma textareaValue_without_transcript (st : state) :
  transcript st = [] -> interim st = [] ->
  textareaValue st = currentAnswer st.
Proof.
  intros Ht Hi. unfold textareaValue, composedTranscript. rewrite Ht, Hi. reflexivity.
Qed.

(** C4. On the two questions: the user records "first" for Q1 and advances,
    records "second" for Q2 and retreats. The retreat leaves the answer
    sequence as it was and makes Q1's stored answer "first" the retained
    answer text, but the answer field shows "second", the transcript
    recorded for Q2, which the retreat has not cleared. *)
Theorem retreat_with_live_transcript_shows_it :
  let st := fst (run COUNT_ROLE_source chrome backend loaded
                   [ClickRecord ok; RecOnResult (said "first"); ClickRecord ok;
                    ClickNext;
                    ClickRecord ok; RecOnResult (said "second"); ClickRecord ok]) in
  let st' := fst (step COUNT_ROLE_source chrome backend st ClickPrevious) in
  currentQuestionIndex st = 1%nat
  /\ currentQuestionIndex st' = 0%nat
  /\ answers st' = answers st
  /\ answers st' = [{| question := Some Q1; answer := str "first"; type := role |}]
  /\ currentAnswer st' = str "first"
  /\ textareaValue st' = str "second".
Proof. vm_compute. repeat split; reflexivity. Qed.

(** *** Counting the answers *)

(** Every advance appends exactly one answer, and nothing else touches the
    answer sequence. *)
Lemma step_answers_length (COUNT_ROLE : nat) (w : option Window) (url : jsstring)
    (st : state) (e : event) :
  length (answers (fst (step COUNT_ROLE w url st e)))
  = (length (answers st) + match e with ClickNext => 1 | _ => 0 end)%nat.
Proof.
  destruct e; cbn; try lia.
  - unfold toggleRecording.
    destruct (has _ _); [cbn; lia|].
    destruct (isRecording st).
    + unfold stopSTT, stopWSRecorder. destruct (isUsingWsRef st); cbn; lia.
    + unfold startSTT, startWSRecorder.
      destruct (recognitionCtor w), (isSecureContextOk w), (isUsingWsRef st),
        (setup o), (start_throws o); cbn; lia.
  - rewrite handleNext_appends, length_app. reflexivity.
  - rewrite handlePrevious_answers. lia.
  - unfold rec_onresult.
    destruct (collect _ _ _) as [f t]. destruct (truthy f); cbn; lia.
Qed.

Lemma run_cons (COUNT_ROLE : nat) (w : option Window) (url : jsstring)
    (st : state) (e : event) (es : list event) :
  fst (run COUNT_ROLE w url st (e :: es))
  = fst (run COUNT_ROLE w url (fst (step COUNT_ROLE w url st e)) es)
  /\ snd (run COUNT_ROLE w url st (e :: es))
     = snd (step COUNT_ROLE w url st e)
       ++ snd (run COUNT_ROLE w url (fst (step COUNT_ROLE w url st e)) es).
Proof.
  cbn [run]. destruct (step COUNT_ROLE w url st e) as [st1 fx1].
  cbn [fst snd]. destruct (run COUNT_ROLE w url st1 es) as [st2 fx2].
  split; reflexivity.
Qed.

(** An advance while more questions remain: no effect, the index moves on. *)
Lemma handleNext_more (COUNT_ROLE : nat) (st : state) :
  (S (currentQuestionIndex st) < length (questions st))%nat ->
  snd (handleNext COUNT_ROLE st) = []
  /\ currentQuestionIndex (fst (handleNext COUNT_ROLE st)) = S (currentQuestionIndex st)
  /\ questions (fst (handleNext COUNT_ROLE st)) = questions st.
Proof.
  intros Hlt. unfold handleNext.
  destruct (Z.ltb_spec (Z.of_nat (currentQuestionIndex st))
              (Z.of_nat (length (questions st)) - 1)) as [H | H]; [|lia].
  cbn. repeat split. lia.
Qed.

(** An advance on the last question or beyond: the callback receives the
    answer sequence as just extended, and the index stays. *)
Lemma handleNext_last (COUNT_ROLE : nat) (st : state) :
  (length (questions st) <= S (currentQuestionIndex st))%nat ->
  snd (handleNext COUNT_ROLE st) = [OnNext (answers (fst (handleNext COUNT_ROLE st)))]
  /\ currentQuestionIndex (fst (handleNext COUNT_ROLE st)) = currentQuestionIndex st.
Proof.
  intros Hge. unfold handleNext.
  destruct (Z.ltb_spec (Z.of_nat (currentQuestionIndex st))
              (Z.of_nat (length (questions st)) - 1)) as [H | H]; [lia|].
  split; reflexivity.
Qed.

(** Advancing from question [i] through the remaining questions, without a
    retreat: the completion callback is called exactly once, with the whole
    answer sequence, which has grown by one answer per remaining question. *)
Lemma advance_to_completion (COUNT_ROLE : nat) (w : option Window) (url : jsstring)
    (k : nat) (st : state) :
  length (questions st) = (currentQuestionIndex st + S k)%nat ->
  onNext_calls (snd (run COUNT_ROLE w url st (replicate (S k) ClickNext)))
  = [answers (fst (run COUNT_ROLE w url st (replicate (S k) ClickNext)))]
  /\ length (answers (fst (run COUNT_ROLE w url st (replicate (S k) ClickNext))))
     = (length (answers st) + S k)%nat.
Proof.
  revert st. induction k as [|k IH]; intros st Hlen.
  - destruct (handleNext_last COUNT_ROLE st) as [Hfx _]; [lia|].
    pose proof (handleNext_appends COUNT_ROLE st) as Happ.
    cbn [replicate run step]. destruct (handleNext COUNT_ROLE st) as [st1 fx1].
    cbn [fst snd] in *. subst fx1. rewrite app_nil_r. cbn [onNext_calls].
    split; [reflexivity|]. rewrite Happ, length_app. reflexivity.
  - change (replicate (S (S k)) ClickNext) with (ClickNext :: replicate (S k) ClickNext).
    destruct (run_cons COUNT_ROLE w url st ClickNext (replicate (S k) ClickNext))
      as [-> ->].
    cbn [step].
    destruct (handleNext_more COUNT_ROLE st) as (Hfx & Hidx & Hqs); [lia|].
    pose proof (handleNext_appends COUNT_ROLE st) as Happ.
    destruct (IH (fst (handleNext COUNT_ROLE st))) as [IH1 IH2].
    { rewrite Hqs, Hidx. lia. }
    rewrite Hfx. cbn [app]. split; [exact IH1|].
    rewrite IH2, Happ, length_app. cbn [length]. lia.
Qed.

(** Without a retreat the completion callback receives one answer per
    question: from the first question of a non-empty list, with no answer
    given yet, as many advances as there are questions end in exactly one
    call, with a sequence of that length. *)
Lemma advance_through_all_questions (COUNT_ROLE : nat) (w : option Window) (url : jsstring)
    (st : state) :
  questions st <> [] ->
  currentQuestionIndex st = 0%nat ->
  answers st = [] ->
  exists a, onNext_calls
              (snd (run COUNT_ROLE w url st (replicate (length (questions st)) ClickNext)))
            = [a]
            /\ length a = length (questions st).
Proof.
  intros Hq Hi Ha.
  destruct (questions st) as [|q qs] eqn:Eq; [congruence|].
  pose proof (advance_to_completion COUNT_ROLE w url (length qs) st) as H.
  rewrite Eq, Hi, Ha in H. cbn [length] in *.
  destruct H as [H1 H2]; [reflexivity|].
  eexists. split; [exact H1|]. rewrite H2. reflexivity.
Qed.

(** Along any run the answer sequence grows by exactly one answer per
    advance, retreats or not. *)
Lemma run_answers_length (COUNT_ROLE : nat) (w : option Window) (url : jsstring)
    (es : list event) (st : state) :
  length (answers (fst (run COUNT_ROLE w url st es)))
  = (length (answers st)
     + length (List.filter (fun e => match e with ClickNext => true | _ => false end) es))%nat.
Proof.
  revert st. induction es as [|e es IH]; intros st.
  - cbn. lia.
  - destruct (run_cons COUNT_ROLE w url st e es) as [-> _].
    rewrite IH, step_answers_length. destruct e; cbn; lia.
Qed.

(** *** The per-question recording marker *)

Lemma has_true (i : nat) (s : gset nat) : has i s = true <-> i ∈ s.
Proof. unfold has. apply bool_decide_eq_true. Qed.







(** *** Native recognition results *)

Lemma collect_spec (rs : list RecognitionResult) (f t : jsstring) :
  collect rs f t
  = (f ++ concat (transcript0 <$> List.filter isFinal rs),
     t ++ concat (transcript0 <$> List.filter (fun r => negb (isFinal r)) rs)).
Proof.
  revert f t. induction rs as [|r rs IH]; intros f t; cbn.
  - rewrite !app_nil_r. reflexivity.
  - destruct (isFinal r); cbn; rewrite IH, <- app_assoc; reflexivity.
Qed.

(** One result event: the committed transcript grows by the trimmed final
    text of the event, after a space if it was not empty, when that final
    text is not empty; the interim transcript becomes the trimmed text of the
    event's other results. *)
Lemma rec_onresult_spec (st : state) (e : RecognitionEvent) :
  transcript (rec_onresult st e)
  = (if truthy (concat (finalFragments e))
     then (if truthy (transcript st) then transcript st ++ str " " else [])
          ++ trim (concat (finalFragments e))
     else transcript st)
  /\ interim (rec_onresult st e) = trim (concat (interimFragments e)).
Proof.
  unfold rec_onresult, finalFragments, interimFragments.
  rewrite collect_spec. cbn [app].
  destruct (truthy _); split; reflexivity.
Qed.

Lemma recognize_transcript (es : list RecognitionEvent) (st : state) :
  transcript (recognize st es) = glue (transcript st) (finalTexts es).
Proof.
  unfold recognize, glue, finalTexts. revert st.
  induction es as [|e es IH]; intros st; [reflexivity|].
  cbn [foldl fmap list_fmap List.filter]. rewrite IH.
  destruct (rec_onresult_spec st e) as [-> _].
  destruct (truthy (concat (finalFragments e))); reflexivity.
Qed.

Lemma join_cons (sep p : jsstring) (ps : list jsstring) :
  join sep (p :: ps) = p ++ match ps with [] => [] | _ => sep ++ join sep ps end.
Proof. destruct ps; cbn; [rewrite app_nil_r|]; reflexivity. Qed.

Lemma glue_nonempty (ps : list jsstring) (t : jsstring) :
  truthy t = true -> glue t ps = join (str " ") (t :: ps).
Proof.
  revert t. induction ps as [|p ps IH]; intros t Ht.
  - reflexivity.
  - unfold glue in *. cbn [foldl]. rewrite Ht, IH.
    + rewrite !join_cons. rewrite <- !app_assoc. reflexivity.
    + destruct t; [discriminate|reflexivity].
Qed.

Lemma glue_empty (ps : list jsstring) :
  glue [] ps = join (str " ") (dropEmpty ps).
Proof.
  induction ps as [|p ps IH]; [reflexivity|].
  destruct p as [|c p].
  - exact IH.
  - change (glue [] ((c :: p) :: ps)) with (glue (c :: p) ps).
    apply glue_nonempty. reflexivity.
Qed.

(** C3 as written fails: for one event with the two finalized fragments "a"
    and "b" the committed transcript is "ab", not "a b". *)
Lemma committed_is_not_space_joined_fragments :
  transcript (recognize (cleared loaded) [said_a_b]) = str "ab"
  /\ spec_committed [said_a_b] = str "a b"
  /\ transcript (recognize (cleared loaded) [said_a_b]) <> spec_committed [said_a_b].
Proof. vm_compute. repeat split; discriminate. Qed.

(** C3, amended. For every sequence of result events after a start, the
    committed transcript is [committed]: the finalized fragments of each
    event (from its result index on) are concatenated without separator, and
    the trimmed texts of the events where that text is not empty are joined
    by single spaces in arrival order, those that are empty after trimming
    and come before the first non-empty one being skipped. After each event
    the interim transcript is the trimmed concatenation of that event's
    not-yet-finalized fragments alone. *)
Theorem recognize_committed_and_interim (st : state) (es : list RecognitionEvent) :
  transcript (recognize (cleared st) es) = committed es
  /\ forall e, interim (recognize (cleared st) (es ++ [e]))
               = trim (concat (interimFragments e)).
Proof.
  split.
  - rewrite recognize_transcript. apply glue_empty.
  - intros e. unfold recognize. rewrite foldl_app. cbn [foldl].
    apply rec_onresult_spec.
Qed.

End InterviewFacts.

(** * Further properties of the two components *)

(** ** More on the JavaScript primitives *)

Module JSMore.

Lemma startsWith_app (needle post : jsstring) :
  startsWith needle (needle ++ post) = true.
Proof.
  induction needle as [|c n IH]; cbn; [reflexivity|].
  rewrite N.eqb_refl. exact IH.
Qed.

Lemma startsWith_split (needle hay : jsstring) :
  startsWith needle hay = true -> exists post, hay = needle ++ post.
Proof.
  revert hay. induction needle as [|c n IH]; intros hay H.
  - exists hay. reflexivity.
  - destruct hay as [|b h]; [discriminate|]. cbn in H.
    apply andb_true_iff in H as [Hc Hn]. apply N.eqb_eq in Hc. subst b.
    destruct (IH h Hn) as [post ->]. exists post. reflexivity.
Qed.

(** [hay.includes(needle)] holds exactly when [needle] occurs in [hay]. *)
Lemma includes_iff (needle hay : jsstring) :
  includes needle hay = true <-> exists pre post, hay = pre ++ needle ++ post.
Proof.
  split.
  - induction hay as [|c h IH]; cbn; intros H.
    + rewrite orb_false_r in H. apply startsWith_split in H as [post ->].
      exists [], post. reflexivity.
    + apply orb_true_iff in H as [H | H].
      * apply startsWith_split in H as [post ->]. exists [], post. reflexivity.
      * destruct (IH H) as (pre & post & ->). exists (c :: pre), post. reflexivity.
  - intros (pre & post & ->). induction pre as [|c pre IH].
    + cbn [app]. destruct (needle ++ post) eqn:E; cbn;
        rewrite <- E, startsWith_app; reflexivity.
    + cbn [app includes]. rewrite IH. apply orb_true_r.
Qed.

Lemma trimStart_head (s : jsstring) (c : N) :
  head (trimStart s) = Some c -> is_whitespace c = false.
Proof.
  induction s as [|a s IH]; cbn; [discriminate|].
  destruct (is_whitespace a) eqn:Ha; [exact IH|].
  cbn. intros [= <-]. exact Ha.
Qed.

Lemma trimStart_suffix (s : jsstring) : exists pre, s = pre ++ trimStart s.
Proof.
  induction s as [|a s [pre IH]]; cbn.
  - exists []. reflexivity.
  - destruct (is_whitespace a).
    + exists (a :: pre). cbn. rewrite <- IH. reflexivity.
    + exists []. reflexivity.
Qed.

Lemma head_rev {A} (l : list A) : head (rev l) = last l.
Proof.
  induction l as [|a l IH] using rev_ind; [reflexivity|].
  rewrite rev_app_distr, last_snoc. reflexivity.
Qed.

Lemma last_rev {A} (l : list A) : last (rev l) = head l.
Proof. rewrite <- head_rev, rev_involutive. reflexivity. Qed.

(** What [trim] returns neither begins nor ends with a whitespace
    character. *)
Lemma trim_ends (s : jsstring) (c : N) :
  head (trim s) = Some c \/ last (trim s) = Some c -> is_whitespace c = false.
Proof.
  unfold trim, trimEnd. intros [H | H].
  - rewrite head_rev in H.
    destruct (trimStart_suffix (rev (trimStart s))) as [pre E].
    destruct (trimStart (rev (trimStart s))) as [|b t] eqn:Et; [discriminate|].
    assert (Hl : last (rev (trimStart s)) = Some c).
    { rewrite E. rewrite last_app, H. reflexivity. }
    rewrite last_rev in Hl. exact (trimStart_head s c Hl).
  - rewrite last_rev in H. exact (trimStart_head _ c H).
Qed.

Lemma hexDigit_inj (d d' : Z) :
  0 <= d < 16 -> 0 <= d' < 16 -> hexDigit d = hexDigit d' -> d = d'.
Proof.
  unfold hexDigit. intros Hd Hd'.
  destruct (Z.ltb_spec d 10), (Z.ltb_spec d' 10); intros Heq;
    apply Z2N.inj in Heq; lia.
Qed.

Lemma toString16_hexDigit (r : Z) :
  0 <= r < 16 -> toString16 r = [hexDigit r].
Proof.
  intros Hr. destruct (JSFacts.nibble_cases r Hr) as
    [->|[->|[->|[->|[->|[->|[->|[->|[->|[->|[->|[->|[->|[->|[->| ->]]]]]]]]]]]]]]];
    reflexivity.
Qed.

Lemma variant_bits (r : Z) :
  0 <= r < 16 ->
  Z.lor (Z.land r 3) 8 = 8 + Z.land r 3 /\ 0 <= Z.land r 3 < 4.
Proof.
  intros Hr. destruct (JSFacts.nibble_cases r Hr) as
    [->|[->|[->|[->|[->|[->|[->|[->|[->|[->|[->|[->|[->|[->|[->| ->]]]]]]]]]]]]]]];
    (split; [reflexivity | split; [discriminate | reflexivity]]).
Qed.

End JSMore.

(** ** The upload flow *)

Module UploadFlow.

Import ResumeUpload JSFacts JSMore.

Lemma handleFileUpload_accepted (st : state) (file : File) (rnd : random_source)
    (o : extract_outcome) :
  includes (str "pdf") (type file) = true ->
  handleFileUpload st file rnd o
  = (fst (handleFileUpload_settle
            {| resumeFile := Some file; resumeContent := resumeContent st;
               isProcessing := true; sessionId := generateUUID rnd |}
            (generateUUID rnd) o),
     UploadResumeExtract (generateUUID rnd) file
     :: snd (handleFileUpload_settle
               {| resumeFile := Some file; resumeContent := resumeContent st;
                  isProcessing := true; sessionId := generateUUID rnd |}
               (generateUUID rnd) o)).
Proof.
  intros Hpdf.
  assert (Hty : truthy (type file) = true)
    by (apply (includes_nonempty (str "pdf")); [reflexivity | exact Hpdf]).
  unfold handleFileUpload, handleFileUpload_begin. rewrite Hpdf, Hty. cbn.
  destruct o; reflexivity.
Qed.

Lemma handleFileUpload_refused (st : state) (file : File) (rnd : random_source)
    (o : extract_outcome) :
  includes (str "pdf") (type file) = false ->
  handleFileUpload st file rnd o
  = (st, [Toast (str "Invalid file type") (str "Please upload a PDF file") true]).
Proof.
  intros Hpdf. unfold handleFileUpload, handleFileUpload_begin.
  rewrite Hpdf, orb_true_r. reflexivity.
Qed.

(** The extraction request goes out exactly when the declared type of the
    file contains "pdf" somewhere, whatever surrounds it; the comparison is
    by code unit, so case matters. *)
Theorem request_iff_type_contains_pdf
    (st : state) (file : File) (rnd : random_source) (o : extract_outcome) :
  existsb is_network_call (snd (handleFileUpload st file rnd o)) = true
  <-> exists pre post, type file = pre ++ str "pdf" ++ post.
Proof.
  rewrite <- includes_iff.
  destruct (includes (str "pdf") (type file)) eqn:Hpdf.
  - rewrite handleFileUpload_accepted by exact Hpdf. split; reflexivity.
  - rewrite handleFileUpload_refused by exact Hpdf. cbn. split; discriminate.
Qed.

(** An accepted upload whose request resolves. Sending: one request goes
    out under a freshly generated identifier in the version-4 layout, which
    is stored as the session, and in the state the sending leaves the submit
    button is disabled. Resolving, in whatever state [mid] the component is
    by then: the status text names the identifier the request was sent under,
    the processing flag is cleared and the button enabled, nothing else is
    touched, and the submit handler hands the parent that status text with
    the session stored in [mid]; the two name the same identifier when the
    stored session is still the one of this request, as it is when nothing
    happened in between. *)
Theorem upload_resolves
    (st mid : state) (file : File) (rnd : random_source) (n : jsstring) :
  includes (str "pdf") (type file) = true ->
  (forall k, in_unit_interval (rnd k)) ->
  let id := generateUUID rnd in
  let sent := {| resumeFile := Some file; resumeContent := resumeContent st;
                 isProcessing := true; sessionId := id |} in
  let done := fst (handleFileUpload_settle mid id (Resolved n)) in
  is_uuid_v4 id = true
  /\ handleFileUpload_begin st file rnd = (sent, [UploadResumeExtract id file], Some id)
  /\ submitDisabled sent = true
  /\ done = {| resumeFile := resumeFile mid;
               resumeContent := str "Indexed " ++ n ++ str " chunks for session " ++ id;
               isProcessing := false; sessionId := sessionId mid |}
  /\ snd (handleFileUpload_settle mid id (Resolved n))
     = [Toast (str "Resume processed successfully")
              (str "Analyzed and indexed (" ++ n ++ str " chunks)") false]
  /\ submitDisabled done = false
  /\ handleSubmit done = (done, [OnNext (resumeContent done) (sessionId mid)])
  /\ (sessionId mid = id ->
      handleSubmit done
      = (done, [OnNext (str "Indexed " ++ n ++ str " chunks for session " ++ id) id]))
  /\ handleFileUpload st file rnd (Resolved n)
     = (fst (handleFileUpload_settle sent id (Resolved n)),
        [UploadResumeExtract id file;
         Toast (str "Resume processed successfully")
               (str "Analyzed and indexed (" ++ n ++ str " chunks)") false]).
Proof.
  intros Hpdf Hrnd id sent done.
  assert (Hty : truthy (type file) = true)
    by (apply (includes_nonempty (str "pdf")); [reflexivity | exact Hpdf]).
  split.
  { apply UploadFacts.template_layout, UploadFacts.replace_xy_pointwise, Hrnd. }
  split.
  { unfold handleFileUpload_begin. rewrite Hpdf, Hty. reflexivity. }
  split; [reflexivity|]. split; [reflexivity|]. split; [reflexivity|].
  split; [reflexivity|]. split; [reflexivity|].
  split.
  { intros E. subst done. cbn. rewrite E. reflexivity. }
  unfold handleFileUpload, handleFileUpload_begin. rewrite Hpdf, Hty. reflexivity.
Qed.

Lemma upload_resolves_witness :
  includes (str "pdf") (type pdf_file) = true
  /\ (forall k, in_unit_interval (half k))
  /\ submitDisabled
       (fst (handleFileUpload_settle
               (fst (handleFileUpload initial pdf_file (draws_of 0) Rejected))
               (generateUUID half) (Resolved (str "12")))) = false.
Proof.
  assert (H : forall k, in_unit_interval (half k)).
  { intros k. split; unfold half, Qle, Qlt; cbn; lia. }
  split; [reflexivity|]. split; [exact H|].
  destruct (upload_resolves initial
              (fst (handleFileUpload initial pdf_file (draws_of 0) Rejected))
              pdf_file half (str "12") eq_refl H)
    as (_ & _ & _ & _ & _ & Hen & _).
  exact Hen.
Defined.

Lemma handleFileUpload_status (st : state) (file : File) (rnd : random_source)
    (o : extract_outcome) :
  truthy (resumeContent (fst (handleFileUpload st file rnd o)))
  = truthy (resumeContent st)
    || includes (str "pdf") (type file)
       && match o with Resolved _ => true | Rejected => false end.
Proof.
  destruct (includes (str "pdf") (type file)) eqn:Hpdf.
  - rewrite handleFileUpload_accepted by exact Hpdf.
    destruct o; cbn; [rewrite orb_true_r | rewrite orb_false_r]; reflexivity.
  - rewrite handleFileUpload_refused by exact Hpdf. cbn.
    rewrite orb_false_r. reflexivity.
Qed.

Lemma handleFileUpload_settled (st : state) (file : File) (rnd : random_source)
    (o : extract_outcome) :
  isProcessing st = false ->
  isProcessing (fst (handleFileUpload st file rnd o)) = false.
Proof.
  intros Hp. destruct (includes (str "pdf") (type file)) eqn:Hpdf.
  - rewrite handleFileUpload_accepted by exact Hpdf. destruct o; reflexivity.
  - rewrite handleFileUpload_refused by exact Hpdf. exact Hp.
Qed.

Lemma uploads_status (l : list attempt) (st : state) :
  isProcessing st = false ->
  isProcessing (fst (uploads st l)) = false
  /\ truthy (resumeContent (fst (uploads st l)))
     = truthy (resumeContent st) || existsb succeeds l.
Proof.
  revert st. induction l as [|a l IH]; intros st Hp; cbn.
  - rewrite orb_false_r. split; [exact Hp | reflexivity].
  - pose proof (handleFileUpload_status st (chosen a) (draws a) (outcome a)) as Hs.
    pose proof (handleFileUpload_settled st (chosen a) (draws a) (outcome a) Hp) as Hp1.
    destruct (handleFileUpload st (chosen a) (draws a) (outcome a)) as [st1 fx1].
    cbn [fst] in *. destruct (IH st1 Hp1) as [IH1 IH2].
    destruct (uploads st1 l) as [st2 fx2]. cbn [fst] in *.
    split; [exact IH1|]. rewrite IH2, Hs. unfold succeeds.
    rewrite orb_assoc. reflexivity.
Qed.

(** Submission is blocked until an extraction has succeeded: after any
    sequence of upload attempts from the first render, the submit button is
    enabled exactly when some attempt passed the type check and had its
    request resolved, and the submit handler then calls the parent's callback
    once, while otherwise it only shows the toast "Resume required". Failed
    and refused attempts after a success do not block it again. *)
Theorem submit_enabled_iff_some_success (l : list attempt) :
  submitDisabled (fst (uploads initial l)) = negb (existsb succeeds l)
  /\ handleSubmit (fst (uploads initial l))
     = (fst (uploads initial l),
        if existsb succeeds l
        then [OnNext (resumeContent (fst (uploads initial l)))
                     (sessionId (fst (uploads initial l)))]
        else [Toast (str "Resume required") (str "Please upload your resume") true]).
Proof.
  destruct (uploads_status l initial eq_refl) as [Hp Hs].
  cbn [initial resumeContent truthy orb] in Hs.
  unfold submitDisabled, handleSubmit. rewrite Hp, Hs. cbn [orb].
  destruct (existsb succeeds l); split; reflexivity.
Qed.

(** A failed second upload leaves a stale pair behind: when a status text
    is already present and the extraction of a newly chosen file fails, the
    submit handler still calls the parent's callback, with the earlier status
    text and the session identifier generated for the failed attempt. *)
Theorem failed_reupload_then_submit
    (st : state) (file : File) (rnd : random_source) :
  truthy (resumeContent st) = true ->
  includes (str "pdf") (type file) = true ->
  snd (handleSubmit (fst (handleFileUpload st file rnd Rejected)))
  = [OnNext (resumeContent st) (generateUUID rnd)].
Proof.
  intros Hc Hpdf. rewrite handleFileUpload_accepted by exact Hpdf.
  cbn. unfold handleSubmit. cbn. rewrite Hc. reflexivity.
Qed.

Lemma failed_reupload_then_submit_witness :
  truthy (resumeContent
            (fst (handleFileUpload initial pdf_file (draws_of 0) (Resolved (str "12")))))
  = true
  /\ includes (str "pdf") (type pdf_file) = true
  /\ snd (handleSubmit
            (fst (handleFileUpload
                    (fst (handleFileUpload initial pdf_file (draws_of 0)
                            (Resolved (str "12"))))
                    pdf_file half Rejected)))
     = [OnNext (resumeContent
                  (fst (handleFileUpload initial pdf_file (draws_of 0)
                          (Resolved (str "12")))))
               (generateUUID half)].
Proof.
  split; [reflexivity|]. split; [reflexivity|].
  apply (failed_reupload_then_submit
           (fst (handleFileUpload initial pdf_file (draws_of 0) (Resolved (str "12"))))
           pdf_file half); reflexivity.
Defined.

Lemma nibble_range (x : Q) : in_unit_interval x -> 0 <= nibble x < 16.
Proof. intros [H0 H1]. exact (bitor0_nibble x H0 H1). Qed.

Lemma uuidReplacer_x (x : Q) :
  in_unit_interval x -> uuidReplacer 120 x = [hexDigit (nibble x)].
Proof.
  intros Hx. unfold uuidReplacer. cbn [N.eqb Pos.eqb].
  apply toString16_hexDigit, nibble_range, Hx.
Qed.

Lemma uuidReplacer_y (x : Q) :
  in_unit_interval x -> uuidReplacer 121 x = [hexDigit (8 + Z.land (nibble x) 3)].
Proof.
  intros Hx. unfold uuidReplacer. cbn [N.eqb Pos.eqb].
  pose proof (nibble_range x Hx) as Hr. fold (nibble x).
  destruct (variant_bits (nibble x) Hr) as [-> Hb].
  apply toString16_hexDigit. lia.
Qed.

(** Two calls of the generator return the same identifier exactly when
    their first 31 draws agree in the nibbles they yield, the sixteenth draw
    only in its two low bits: the identifier carries 122 random bits and
    nothing else of the draws. *)
Theorem generateUUID_eq_iff (rnd rnd' : random_source) :
  (forall k, in_unit_interval (rnd k)) ->
  (forall k, in_unit_interval (rnd' k)) ->
  generateUUID rnd = generateUUID rnd'
  <-> (forall k, (k < 31)%nat -> k <> 15%nat -> nibble (rnd k) = nibble (rnd' k))
      /\ Z.land (nibble (rnd 15%nat)) 3 = Z.land (nibble (rnd' 15%nat)) 3.
Proof.
  intros Hr Hr'. unfold generateUUID.
  let t := eval vm_compute in uuidTemplate in change uuidTemplate with t.
  cbn -[uuidReplacer].
  rewrite !uuidReplacer_x, !uuidReplacer_y by (apply Hr || apply Hr').
  cbn [app].
  split.
  - intros E. injection E as E0 E1 E2 E3 E4 E5 E6 E7 E8 E9 E10 E11 E12 E13 E14
      E15 E16 E17 E18 E19 E20 E21 E22 E23 E24 E25 E26 E27 E28 E29 E30.
    split.
    + intros k Hk Hne.
      do 31 (destruct k as [|k];
             [first [ apply hexDigit_inj;
                      [apply nibble_range, Hr | apply nibble_range, Hr' | assumption]
                    | lia ] |]).
      lia.
    + pose proof (nibble_range _ (Hr 15%nat)) as H1.
      pose proof (nibble_range _ (Hr' 15%nat)) as H2.
      destruct (variant_bits _ H1) as [_ B1]. destruct (variant_bits _ H2) as [_ B2].
      apply hexDigit_inj in E15; lia.
  - intros [H Hy]. rewrite Hy.
    repeat match goal with
           | |- context [nibble (rnd ?k)] => rewrite (H k) by lia
           end.
    reflexivity.
Qed.

Lemma generateUUID_eq_iff_witness :
  (forall k, in_unit_interval (half k))
  /\ (forall k, in_unit_interval (half_but_variant k))
  /\ generateUUID half = generateUUID half_but_variant.
Proof.
  assert (H : forall k, in_unit_interval (half k)).
  { intros k. split; unfold half, Qle, Qlt; cbn; lia. }
  assert (H' : forall k, in_unit_interval (half_but_variant k)).
  { intros k. unfold half_but_variant.
    destruct (k =? 15)%nat; split; unfold Qle, Qlt; cbn; lia. }
  split; [exact H|]. split; [exact H'|].
  apply (generateUUID_eq_iff half half_but_variant H H').
  split.
  - intros k Hk Hne. unfold half_but_variant, half.
    destruct (Nat.eqb_spec k 15); [contradiction | reflexivity].
  - reflexivity.
Defined.

End UploadFlow.

(** ** The interview flow *)

Module InterviewFlow.

Import TechnicalInterview JSFacts JSMore InterviewFacts.

(** *** The question index and the questions of the answers *)

Lemma onNext_calls_app (fx1 fx2 : list effect) :
  onNext_calls (fx1 ++ fx2) = onNext_calls fx1 ++ onNext_calls fx2.
Proof.
  induction fx1 as [|e fx1 IH]; [reflexivity|].
  destruct e; cbn; rewrite IH; reflexivity.
Qed.

(** Only an advance calls the completion callback, and what it hands over
    is the answer sequence as the advance leaves it. *)
Lemma step_onNext (COUNT_ROLE : nat) (w : option Window) (url : jsstring)
    (st : state) (e : event) :
  onNext_calls (snd (step COUNT_ROLE w url st e)) = []
  \/ onNext_calls (snd (step COUNT_ROLE w url st e))
     = [answers (fst (step COUNT_ROLE w url st e))].
Proof.
  destruct e; cbn; try (left; reflexivity).
  - left. unfold toggleRecording.
    destruct (has _ _); [reflexivity|].
    destruct (isRecording st).
    + unfold stopSTT, stopWSRecorder.
      destruct (isUsingWsRef st), (mediaRecorderRef st), (wsRef st),
        (recognitionInstanceRef st); reflexivity.
    + unfold startSTT, startWSRecorder.
      destruct (recognitionCtor w), (isSecureContextOk w), (isUsingWsRef st),
        (setup o), (start_throws o), (recognitionInstanceRef st); reflexivity.
  - unfold handleNext. destruct (_ <? _); [left | right]; reflexivity.
  - left. destruct (nonempty && ws_open); reflexivity.
Qed.

Lemma step_index (COUNT_ROLE : nat) (w : option Window) (url : jsstring)
    (st : state) (e : event) :
  no_refetch [e] = true ->
  (currentQuestionIndex st < length (questions st))%nat ->
  questions (fst (step COUNT_ROLE w url st e)) = questions st
  /\ (currentQuestionIndex (fst (step COUNT_ROLE w url st e)) < length (questions st))%nat.
Proof.
  intros Hne Hlt. destruct e; cbn in Hne; try discriminate; cbn;
    try (split; [reflexivity | exact Hlt]).
  - unfold toggleRecording.
    destruct (has _ _); [split; [reflexivity | exact Hlt]|].
    destruct (isRecording st).
    + unfold stopSTT, stopWSRecorder.
      destruct (isUsingWsRef st); cbn; split; (reflexivity || exact Hlt).
    + unfold startSTT, startWSRecorder.
      destruct (recognitionCtor w), (isSecureContextOk w), (isUsingWsRef st),
        (setup o), (start_throws o); cbn; split; (reflexivity || exact Hlt).
  - unfold handleNext.
    destruct (Z.ltb_spec (Z.of_nat (currentQuestionIndex st))
                (Z.of_nat (length (questions st)) - 1)); cbn;
      split; try reflexivity; lia.
  - unfold handlePrevious.
    destruct (0 <? currentQuestionIndex st)%nat; cbn; split; try reflexivity; lia.
  - unfold rec_onresult. destruct (collect _ _ _) as [f t].
    destruct (truthy f); cbn; split; (reflexivity || exact Hlt).
Qed.

Lemma step_asks_from (COUNT_ROLE : nat) (w : option Window) (url : jsstring)
    (st : state) (e : event) :
  (currentQuestionIndex st < length (questions st))%nat ->
  forallb (asks_from (questions st)) (answers st) = true ->
  forallb (asks_from (questions st)) (answers (fst (step COUNT_ROLE w url st e))) = true.
Proof.
  intros Hlt Ha. destruct e; cbn; try exact Ha.
  - unfold toggleRecording.
    destruct (has _ _); [exact Ha|].
    destruct (isRecording st).
    + unfold stopSTT, stopWSRecorder. destruct (isUsingWsRef st); exact Ha.
    + unfold startSTT, startWSRecorder.
      destruct (recognitionCtor w), (isSecureContextOk w), (isUsingWsRef st),
        (setup o), (start_throws o); exact Ha.
  - rewrite handleNext_appends, forallb_app, Ha. cbn. unfold asks_from. cbn.
    destruct (lookup_lt_is_Some_2 (questions st) (currentQuestionIndex st) Hlt)
      as [q Hq].
    rewrite Hq. rewrite bool_decide_eq_true_2; [reflexivity|].
    apply (list_elem_of_lookup_2 _ _ _ Hq).
  - rewrite handlePrevious_answers. exact Ha.
  - unfold rec_onresult. destruct (collect _ _ _) as [f t].
    destruct (truthy f); exact Ha.
Qed.

(** While the question list is not fetched again, from a state whose index
    is inside the list and whose answers all name questions of the list: the
    question index stays inside the list, the list stays the same, and every
    answer appended, and so every answer of every sequence handed to the
    completion callback, names a question that occurs in the list, whatever
    the user and the speech engine do in whatever order. *)
Theorem run_index_in_range (COUNT_ROLE : nat) (w : option Window) (url : jsstring)
    (es : list event) (st : state) :
  no_refetch es = true ->
  (currentQuestionIndex st < length (questions st))%nat ->
  forallb (asks_from (questions st)) (answers st) = true ->
  questions (fst (run COUNT_ROLE w url st es)) = questions st
  /\ (currentQuestionIndex (fst (run COUNT_ROLE w url st es)) < length (questions st))%nat
  /\ forallb (asks_from (questions st)) (answers (fst (run COUNT_ROLE w url st es))) = true
  /\ forallb (forallb (asks_from (questions st)))
       (onNext_calls (snd (run COUNT_ROLE w url st es))) = true.
Proof.
  revert st. induction es as [|e es IH]; intros st Hne Hlt Ha.
  - cbn. repeat split; assumption.
  - cbn [no_refetch forallb] in Hne. apply andb_true_iff in Hne as [He Hes].
    destruct (run_cons COUNT_ROLE w url st e es) as [-> ->].
    destruct (step_index COUNT_ROLE w url st e) as [Hq Hi];
      [cbn; rewrite He; reflexivity | exact Hlt |].
    pose proof (step_asks_from COUNT_ROLE w url st e Hlt Ha) as Ha1.
    destruct (IH (fst (step COUNT_ROLE w url st e)) Hes) as (IH1 & IH2 & IH3 & IH4);
      [rewrite Hq; exact Hi | rewrite Hq; exact Ha1 |].
    rewrite Hq in IH1, IH2, IH3, IH4.
    repeat split; try assumption.
    rewrite onNext_calls_app, forallb_app, IH4, andb_true_r.
    destruct (step_onNext COUNT_ROLE w url st e) as [-> | ->]; [reflexivity|].
    cbn. rewrite Ha1. reflexivity.
Qed.

Lemma run_index_in_range_witness :
  no_refetch [ClickNext; ClickPrevious; ClickNext; ClickNext] = true
  /\ (currentQuestionIndex loaded < length (questions loaded))%nat
  /\ forallb (asks_from (questions loaded)) (answers loaded) = true
  /\ forallb (forallb (asks_from (questions loaded)))
       (onNext_calls (snd (run COUNT_ROLE_source chrome backend loaded
                             [ClickNext; ClickPrevious; ClickNext; ClickNext]))) = true.
Proof.
  assert (H : (currentQuestionIndex loaded < length (questions loaded))%nat)
    by (cbn; lia).
  split; [reflexivity|]. split; [exact H|]. split; [reflexivity|].
  apply (run_index_in_range COUNT_ROLE_source chrome backend
           [ClickNext; ClickPrevious; ClickNext; ClickNext] loaded eq_refl H eq_refl).
Defined.

(** *** Edge cases of advancing *)

(** When the question request fails, or its response carries no list or an
    empty one, loading ends with no questions; the first advance then
    completes at once, handing over a sequence that ends in an answer
    without a question, whose text is what the answer field shows. *)
Theorem no_questions_completes_at_once
    (COUNT_ROLE : nat) (st : state) (resp : option (option (list jsstring))) :
  resp = None \/ resp = Some None \/ resp = Some (Some []) ->
  let st0 := fetchQs_settle st resp in
  questions st0 = []
  /\ isLoading st0 = false
  /\ snd (handleNext COUNT_ROLE st0)
     = [OnNext (answers st
                ++ [{| question := None; answer := textareaValue st;
                       type := if (currentQuestionIndex st <? COUNT_ROLE)%nat
                               then role else resume |}])].
Proof.
  intros Hresp st0.
  assert (Hq : questions st0 = []) by (destruct Hresp as [-> | [-> | ->]]; reflexivity).
  split; [exact Hq|]. split; [reflexivity|].
  destruct (handleNext_last COUNT_ROLE st0) as [-> _]; [rewrite Hq; cbn; lia|].
  rewrite handleNext_appends, Hq, lookup_nil. reflexivity.
Qed.

Lemma no_questions_completes_at_once_witness :
  (@None (option (list jsstring)) = None
   \/ @None (option (list jsstring)) = Some None
   \/ @None (option (list jsstring)) = Some (Some []))
  /\ snd (handleNext COUNT_ROLE_source (fetchQs_settle initial None))
     = [OnNext [{| question := None; answer := []; type := role |}]].
Proof.
  split; [left; reflexivity|].
  apply (no_questions_completes_at_once COUNT_ROLE_source initial None).
  left. reflexivity.
Defined.

(** On the last question an advance does not move on, so every further
    click calls the completion callback again, each time with one answer
    more than the time before. *)
Theorem repeated_completion (COUNT_ROLE : nat) (w : option Window) (url : jsstring)
    (k : nat) (st : state) :
  (length (questions st) <= S (currentQuestionIndex st))%nat ->
  map length (onNext_calls (snd (run COUNT_ROLE w url st (replicate k ClickNext))))
  = map (fun j => (length (answers st) + S j)%nat) (seq 0 k)
  /\ currentQuestionIndex (fst (run COUNT_ROLE w url st (replicate k ClickNext)))
     = currentQuestionIndex st.
Proof.
  revert st. induction k as [|k IH]; intros st Hlast; [split; reflexivity|].
  change (replicate (S k) ClickNext) with (ClickNext :: replicate k ClickNext).
  destruct (run_cons COUNT_ROLE w url st ClickNext (replicate k ClickNext)) as [-> ->].
  cbn [step].
  destruct (handleNext_last COUNT_ROLE st Hlast) as [Hfx Hidx].
  pose proof (handleNext_appends COUNT_ROLE st) as Happ.
  assert (Hqs : questions (fst (handleNext COUNT_ROLE st)) = questions st).
  { unfold handleNext. destruct (_ <? _); reflexivity. }
  destruct (IH (fst (handleNext COUNT_ROLE st))) as [IH1 IH2].
  { rewrite Hqs, Hidx. exact Hlast. }
  rewrite Hfx. cbn [app onNext_calls map seq]. rewrite IH1, IH2, Hidx.
  split; [|reflexivity].
  rewrite Happ, length_app. cbn [length].
  rewrite <- seq_shift, map_map.
  f_equal; try lia. apply map_ext. intros j. lia.
Qed.

Lemma repeated_completion_witness :
  (length (questions on_second) <= S (currentQuestionIndex on_second))%nat
  /\ map length
       (onNext_calls (snd (run COUNT_ROLE_source chrome backend on_second
                             (replicate 3 ClickNext))))
     = [2; 3; 4]%nat.
Proof.
  assert (H : (length (questions on_second) <= S (currentQuestionIndex on_second))%nat)
    by (vm_compute; lia).
  split; [exact H|].
  apply (repeated_completion COUNT_ROLE_source chrome backend 3 on_second H).
Defined.

Lemma handleNext_refs (COUNT_ROLE : nat) (st : state) :
  recognitionInstanceRef (fst (handleNext COUNT_ROLE st)) = recognitionInstanceRef st
  /\ mediaRecorderRef (fst (handleNext COUNT_ROLE st)) = mediaRecorderRef st
  /\ wsRef (fst (handleNext COUNT_ROLE st)) = wsRef st.
Proof. unfold handleNext. destruct (_ <? _); repeat split. Qed.

Lemma rec_onresult_frame (st : state) (e : RecognitionEvent) :
  recognitionInstanceRef (rec_onresult st e) = recognitionInstanceRef st
  /\ mediaRecorderRef (rec_onresult st e) = mediaRecorderRef st
  /\ wsRef (rec_onresult st e) = wsRef st
  /\ currentQuestionIndex (rec_onresult st e) = currentQuestionIndex st.
Proof.
  unfold rec_onresult. destruct (collect _ _ _) as [f t].
  destruct (truthy f); repeat split.
Qed.

(** An advance performs no call on the recognizer, the recorder or the
    socket and leaves the refs as they are, so a capture that is running goes
    on: a result event that arrives after the advance, with a non-empty final
    text, becomes the committed transcript of the following question. *)
Theorem result_after_advance (COUNT_ROLE : nat) (w : option Window) (url : jsstring)
    (st : state) (e : RecognitionEvent) :
  (S (currentQuestionIndex st) < length (questions st))%nat ->
  truthy (concat (finalFragments e)) = true ->
  let r := run COUNT_ROLE w url st [ClickNext; RecOnResult e] in
  snd r = []
  /\ recognitionInstanceRef (fst r) = recognitionInstanceRef st
  /\ mediaRecorderRef (fst r) = mediaRecorderRef st
  /\ wsRef (fst r) = wsRef st
  /\ currentQuestionIndex (fst r) = S (currentQuestionIndex st)
  /\ transcript (fst r) = trim (concat (finalFragments e)).
Proof.
  intros Hlt Hf r. subst r.
  destruct (run_cons COUNT_ROLE w url st ClickNext [RecOnResult e]) as [-> ->].
  cbn [run step fst snd app].
  destruct (handleNext_more COUNT_ROLE st Hlt) as (Hfx & Hidx & _).
  destruct (handleNext_refs COUNT_ROLE st) as (R1 & R2 & R3).
  destruct (rec_onresult_frame (fst (handleNext COUNT_ROLE st)) e) as (F1 & F2 & F3 & F4).
  destruct (rec_onresult_spec (fst (handleNext COUNT_ROLE st)) e) as [Ht _].
  rewrite Hf in Ht.
  assert (Hclear : transcript (fst (handleNext COUNT_ROLE st)) = []).
  { unfold handleNext.
    destruct (Z.ltb_spec (Z.of_nat (currentQuestionIndex st))
                (Z.of_nat (length (questions st)) - 1)); [reflexivity | lia]. }
  rewrite Hclear in Ht. cbn [truthy app] in Ht.
  rewrite Hfx, F1, F2, F3, F4, R1, R2, R3, Hidx, Ht.
  repeat split.
Qed.

Lemma result_after_advance_witness :
  (S (currentQuestionIndex heard_partial) < length (questions heard_partial))%nat
  /\ truthy (concat (finalFragments (said "late"))) = true
  /\ transcript (fst (run COUNT_ROLE_source chrome backend heard_partial
                        [ClickNext; RecOnResult (said "late")]))
     = trim (concat (finalFragments (said "late"))).
Proof.
  assert (H : (S (currentQuestionIndex heard_partial)
               < length (questions heard_partial))%nat) by (vm_compute; lia).
  split; [exact H|]. split; [reflexivity|].
  apply (result_after_advance COUNT_ROLE_source chrome backend heard_partial
           (said "late") H eq_refl).
Defined.

(** *** Advancing, retreating and the record control *)

Lemma run_single (COUNT_ROLE : nat) (w : option Window) (url : jsstring)
    (st : state) (e : event) :
  fst (run COUNT_ROLE w url st [e]) = fst (step COUNT_ROLE w url st e)
  /\ snd (run COUNT_ROLE w url st [e]) = snd (step COUNT_ROLE w url st e).
Proof.
  cbn [run]. destruct (step COUNT_ROLE w url st e) as [st1 fx1].
  cbn. rewrite app_nil_r. split; reflexivity.
Qed.

(** Advancing past a question closes it for recording: after an advance
    and a retreat back to it, the record control does nothing, whether or not
    the question had been recorded at all. *)
Theorem advance_then_retreat_disables_recording
    (COUNT_ROLE : nat) (w : option Window) (url : jsstring)
    (st : state) (o : start_oracle) :
  (S (currentQuestionIndex st) < length (questions st))%nat ->
  let back := fst (run COUNT_ROLE w url st [ClickNext; ClickPrevious]) in
  currentQuestionIndex back = currentQuestionIndex st
  /\ toggleRecording w url back o = (back, []).
Proof.
  intros Hlt back. subst back.
  destruct (run_cons COUNT_ROLE w url st ClickNext [ClickPrevious]) as [-> _].
  cbn [run step fst snd].
  unfold handleNext.
  destruct (Z.ltb_spec (Z.of_nat (currentQuestionIndex st))
              (Z.of_nat (length (questions st)) - 1)); [|lia].
  cbn [fst snd]. unfold handlePrevious. cbn [currentQuestionIndex setAnsweredOnce
    setInterim setTranscript setIsRecording setCurrentQuestionIndex setAnswers].
  replace (0 <? currentQuestionIndex st + 1)%nat with true
    by (symmetry; apply Nat.ltb_lt; lia).
  replace (currentQuestionIndex st + 1 - 1)%nat with (currentQuestionIndex st) by lia.
  split; [reflexivity|].
  unfold toggleRecording. cbn [currentQuestionIndex answeredOnce setCurrentAnswer
    setCurrentQuestionIndex].
  replace (has _ _) with true; [reflexivity|].
  symmetry. apply has_true. set_solver.
Qed.

Lemma advance_then_retreat_disables_recording_witness :
  (S (currentQuestionIndex loaded) < length (questions loaded))%nat
  /\ toggleRecording chrome backend
       (fst (run COUNT_ROLE_source chrome backend loaded [ClickNext; ClickPrevious])) ok
     = (fst (run COUNT_ROLE_source chrome backend loaded [ClickNext; ClickPrevious]), []).
Proof.
  assert (H : (S (currentQuestionIndex loaded) < length (questions loaded))%nat)
    by (cbn; lia).
  split; [exact H|].
  apply (advance_then_retreat_disables_recording COUNT_ROLE_source chrome backend
           loaded ok H).
Defined.

(** A retreat followed by an advance, with nothing transcribed in between,
    answers the earlier question once more with the text stored at its
    position: the index is back where it was, no effect is performed, and
    the answer sequence has grown by a copy of that text. *)
Theorem retreat_then_advance_resubmits
    (COUNT_ROLE : nat) (w : option Window) (url : jsstring)
    (st : state) (i : nat) (a : Answer) :
  currentQuestionIndex st = S i ->
  (S i < length (questions st))%nat ->
  answers st !! i = Some a ->
  transcript st = [] ->
  interim st = [] ->
  let r := run COUNT_ROLE w url st [ClickPrevious; ClickNext] in
  snd r = []
  /\ currentQuestionIndex (fst r) = S i
  /\ answers (fst r)
     = answers st
       ++ [{| question := questions st !! i; answer := answer a;
              type := if (i <? COUNT_ROLE)%nat then role else resume |}].
Proof.
  intros Hi Hlt Ha Ht Hin r. subst r.
  destruct (run_cons COUNT_ROLE w url st ClickPrevious [ClickNext]) as [-> ->].
  cbn [step fst snd app].
  destruct (run_single COUNT_ROLE w url (handlePrevious st) ClickNext) as [-> ->].
  cbn [step].
  destruct (handlePrevious_restores st i a Hi Ha) as [Hidx Hcur].
  assert (Hq : questions (handlePrevious st) = questions st
               /\ transcript (handlePrevious st) = transcript st
               /\ interim (handlePrevious st) = interim st).
  { unfold handlePrevious. destruct (0 <? _)%nat; repeat split. }
  destruct Hq as (Hq & Ht' & Hin').
  destruct (handleNext_more COUNT_ROLE (handlePrevious st)) as (Hfx & Hidx' & _).
  { rewrite Hidx, Hq. lia. }
  rewrite Hfx, Hidx', Hidx, handleNext_appends, handlePrevious_answers, Hq, Hidx.
  unfold composedTranscript. rewrite Ht', Hin', Ht, Hin, Hcur.
  repeat split.
Qed.

Lemma retreat_then_advance_resubmits_witness :
  currentQuestionIndex three_on_second = 1%nat
  /\ (1 < length (questions three_on_second))%nat
  /\ answers three_on_second !! 0%nat
     = Some {| question := Some Q1; answer := str "first"; type := role |}
  /\ transcript three_on_second = []
  /\ interim three_on_second = []
  /\ map answer
       (answers (fst (run COUNT_ROLE_source chrome backend three_on_second
                        [ClickPrevious; ClickNext])))
     = [str "first"; str "first"].
Proof.
  assert (H : (1 < length (questions three_on_second))%nat) by (vm_compute; lia).
  split; [reflexivity|]. split; [exact H|]. split; [reflexivity|].
  split; [reflexivity|]. split; [reflexivity|].
  destruct (retreat_then_advance_resubmits COUNT_ROLE_source chrome backend
              three_on_second 0
              {| question := Some Q1; answer := str "first"; type := role |}
              eq_refl H eq_refl eq_refl eq_refl)
    as (_ & _ & ->).
  reflexivity.
Defined.

(** The text an advance records is the text the answer field shows. When
    it comes from speech (the composed transcript is not empty) it is that
    transcript, and it neither begins nor ends with a whitespace character;
    otherwise it is the retained answer text as it stands. *)
Theorem recorded_answer_is_displayed (COUNT_ROLE : nat) (st : state) :
  (answer <$> last (answers (fst (handleNext COUNT_ROLE st)))) = Some (textareaValue st)
  /\ (truthy (composedTranscript st) = true ->
      textareaValue st = composedTranscript st
      /\ forall c, head (textareaValue st) = Some c \/ last (textareaValue st) = Some c ->
                   is_whitespace c = false)
  /\ (truthy (composedTranscript st) = false ->
      textareaValue st = currentAnswer st).
Proof.
  split; [rewrite handleNext_appends, last_snoc; reflexivity|].
  unfold textareaValue, or_else. split; intros ->.
  - split; [reflexivity|]. unfold composedTranscript. intros c. apply trim_ends.
  - reflexivity.
Qed.

Lemma recorded_answer_is_displayed_witness :
  truthy (composedTranscript heard_partial) = true
  /\ textareaValue heard_partial = composedTranscript heard_partial.
Proof.
  split; [reflexivity|].
  apply (recorded_answer_is_displayed COUNT_ROLE_source heard_partial). reflexivity.
Defined.

(** After an engine error or the natural end of a session the question can
    be recorded again where the native engine is in use, and the new attempt
    starts from nothing: what had been transcribed before is discarded, not
    continued. *)
Theorem retry_discards_transcript (w : option Window) (url : jsstring)
    (st : state) (error : option jsstring) (o : start_oracle) :
  recognitionCtor w = true ->
  isSecureContextOk w = true ->
  has (currentQuestionIndex st) (answeredOnce st) = false ->
  let retry s := toggleRecording w url s o in
  transcript (fst (rec_onerror st error)) = transcript st
  /\ transcript (rec_onend st) = transcript st
  /\ transcript (fst (retry (fst (rec_onerror st error)))) = []
  /\ interim (fst (retry (fst (rec_onerror st error)))) = []
  /\ transcript (fst (retry (rec_onend st))) = []
  /\ In RecognitionStart (snd (retry (fst (rec_onerror st error))))
  /\ In RecognitionStart (snd (retry (rec_onend st))).
Proof.
  intros Hc Hs Hm retry. subst retry.
  unfold toggleRecording, rec_onerror, rec_onend, startSTT. cbn.
  rewrite Hm, Hc, Hs. cbn.
  destruct (start_throws o), (recognitionInstanceRef st); cbn; intuition.
Qed.

Lemma retry_discards_transcript_witness :
  recognitionCtor chrome = true
  /\ isSecureContextOk chrome = true
  /\ has (currentQuestionIndex heard_partial) (answeredOnce heard_partial) = false
  /\ transcript heard_partial = str "partial"
  /\ transcript (fst (toggleRecording chrome backend
                        (fst (rec_onerror heard_partial (Some (str "no-speech")))) ok))
     = [].
Proof.
  split; [reflexivity|]. split; [reflexivity|]. split; [vm_compute; reflexivity|].
  split; [vm_compute; reflexivity|].
  apply (retry_discards_transcript chrome backend heard_partial
           (Some (str "no-speech")) ok); vm_compute; reflexivity.
Defined.

(** *** The socket relay *)

Lemma startsWith_prefix (a b hay : jsstring) :
  startsWith (a ++ b) hay = true -> startsWith a hay = true.
Proof.
  revert hay. induction a as [|c a IH]; intros hay H; [reflexivity|].
  destruct hay as [|d h]; [discriminate|]. cbn in *.
  apply andb_true_iff in H as [-> H]. exact (IH h H).
Qed.

(** The socket address: an https base gives a wss address and an http base
    a ws address, the rest of the base kept and the path "/ws/stt" appended;
    a base that does not begin with "http" is kept whole, the path
    appended. *)
Theorem wsUrl_scheme (rest : jsstring) :
  wsUrl (str "https" ++ rest) = str "wss" ++ rest ++ str "/ws/stt"
  /\ (startsWith (str "s") rest = false ->
      wsUrl (str "http" ++ rest) = str "ws" ++ rest ++ str "/ws/stt")
  /\ (startsWith (str "http") rest = false ->
      wsUrl rest = rest ++ str "/ws/stt").
Proof.
  split; [|split].
  - unfold wsUrl. rewrite startsWith_app. cbn [app str map list_ascii_of_string].
    cbn. reflexivity.
  - intros Hs. unfold wsUrl.
    assert (H5 : startsWith (str "https") (str "http" ++ rest) = false).
    { destruct rest as [|c rest]; [reflexivity|].
      cbn in Hs. rewrite andb_true_r in Hs. cbn. rewrite Hs. reflexivity. }
    rewrite H5, startsWith_app. cbn. reflexivity.
  - intros Hh. unfold wsUrl. rewrite Hh.
    destruct (startsWith (str "https") rest) eqn:H5; [|reflexivity].
    apply (startsWith_prefix (str "http") (str "s")) in H5. congruence.
Qed.

Lemma wsUrl_scheme_witness :
  startsWith (str "s") (str "://localhost:8000") = false
  /\ wsUrl (str "http" ++ str "://localhost:8000")
     = str "ws" ++ str "://localhost:8000" ++ str "/ws/stt".
Proof.
  split; [reflexivity|].
  apply (wsUrl_scheme (str "://localhost:8000")). reflexivity.
Defined.

(** Setting the relay up never switches recording on and never starts the
    recorder: chunking, at a one-second interval, starts when the socket
    reports open. A set-up that is already in use is left alone. A failed
    set-up ends in an error toast and stores no socket, but when it is the
    socket constructor that throws, the recorder created before it stays in
    its ref. *)
Theorem relay_setup_does_not_record (url : jsstring) (st : state) (o : start_oracle) :
  isRecording (fst (startWSRecorder url st o)) = isRecording st
  /\ (forall t, ~ In (MediaRecorderStart t) (snd (startWSRecorder url st o)))
  /\ (isUsingWsRef st = true -> startWSRecorder url st o = (st, []))
  /\ (isUsingWsRef st = false -> setup o <> SetupOk ->
      wsRef (fst (startWSRecorder url st o)) = wsRef st
      /\ last (snd (startWSRecorder url st o))
         = Some (Toast (str "Failed to start recording")
                       (Some (str "Allow microphone access and try again.")) true))
  /\ (isUsingWsRef st = false -> setup o = SocketThrows ->
      mediaRecorderRef (fst (startWSRecorder url st o)) = true)
  /\ (isUsingWsRef st = false -> setup o = SetupOk ->
      wsRef (fst (startWSRecorder url st o)) = true
      /\ mediaRecorderRef (fst (startWSRecorder url st o)) = true
      /\ existsb is_error_toast (snd (startWSRecorder url st o)) = false)
  /\ (isRecording (fst (ws_onopen st)) = true
      /\ In (MediaRecorderStart 1000) (snd (ws_onopen st))).
Proof.
  unfold startWSRecorder.
  destruct (isUsingWsRef st), (setup o); cbn; repeat split;
    try discriminate; try congruence; try tauto;
    intros; intuition discriminate.
Qed.

Lemma relay_setup_does_not_record_witness :
  isUsingWsRef loaded = false
  /\ setup {| start_throws := false; setup := SocketThrows |} = SocketThrows
  /\ mediaRecorderRef
       (fst (startWSRecorder backend loaded
               {| start_throws := false; setup := SocketThrows |})) = true.
Proof.
  split; [reflexivity|]. split; [reflexivity|].
  apply (relay_setup_does_not_record backend loaded
           {| start_throws := false; setup := SocketThrows |}); reflexivity.
Defined.

(** Stopping a recording always ends in the state not recording, with the
    transcript kept and the toast "Recording stopped" shown last. Through
    the relay it clears the recorder, the socket and the relay flag, sends
    the sentinel "__end__" right before closing a socket that is there,
    makes no browser call at all when neither recorder nor socket is there,
    and does not touch the native recognizer. Outside the relay it stops the
    recognizer and touches nothing of the relay, whose refs stay as they
    are. *)
Theorem stopSTT_release (st : state) :
  isRecording (fst (stopSTT st)) = false
  /\ transcript (fst (stopSTT st)) = transcript st
  /\ last (snd (stopSTT st)) = Some (Toast (str "Recording stopped") None false)
  /\ (isUsingWsRef st = true ->
      mediaRecorderRef (fst (stopSTT st)) = false
      /\ wsRef (fst (stopSTT st)) = false
      /\ isUsingWsRef (fst (stopSTT st)) = false
      /\ existsb is_native_effect (snd (stopSTT st)) = false
      /\ (wsRef st = true ->
          exists pre, snd (stopSTT st)
                      = pre ++ [WebSocketSendText (str "__end__"); WebSocketClose;
                                Toast (str "Recording stopped") None false])
      /\ (mediaRecorderRef st = false -> wsRef st = false ->
          snd (stopSTT st) = [Toast (str "Recording stopped") None false]))
  /\ (isUsingWsRef st = false ->
      existsb is_relay_effect (snd (stopSTT st)) = false
      /\ mediaRecorderRef (fst (stopSTT st)) = mediaRecorderRef st
      /\ wsRef (fst (stopSTT st)) = wsRef st
      /\ (recognitionInstanceRef st = true -> In RecognitionStop (snd (stopSTT st)))).
Proof.
  unfold stopSTT, stopWSRecorder.
  destruct (isUsingWsRef st), (mediaRecorderRef st) eqn:Hm, (wsRef st) eqn:Hw,
    (recognitionInstanceRef st); cbn; repeat split;
    try discriminate; try (intros; discriminate); try tauto.
  all: try (intros _; eexists [_]; reflexivity).
  all: try (intros _; exists []; reflexivity).
Qed.

Lemma stopSTT_release_witness :
  isUsingWsRef first_recorded = false
  /\ existsb is_relay_effect (snd (stopSTT first_recorded)) = false.
Proof.
  split; [reflexivity|].
  apply (stopSTT_release first_recorded). reflexivity.
Defined.

(** The transcript message of the relay ends the recording without
    stopping the recorder or closing the socket and without marking the
    question, so the record control starts over: where the relay is the
    transport, the next click creates a new recorder and a new socket beside
    the old ones, stops and closes nothing, and keeps the transcript the
    message brought. *)
Theorem relay_record_again_after_message
    (w : option Window) (url : jsstring) (st : state) (data : MessageData)
    (o : start_oracle) :
  recognitionCtor w = false ->
  isSecureContextOk w = true ->
  has (currentQuestionIndex st) (answeredOnce st) = false ->
  setup o = SetupOk ->
  let st1 := ws_onmessage st data in
  mediaRecorderRef st1 = mediaRecorderRef st
  /\ wsRef st1 = wsRef st
  /\ toggleRecording w url st1 o
     = (setWsRef true (setMediaRecorderRef true st1),
        [GetUserMedia; MediaRecorderNew; WebSocketNew (wsUrl url)])
  /\ transcript (fst (toggleRecording w url st1 o)) = transcript st1.
Proof.
  intros Hc Hs Hm Ho st1.
  assert (E : toggleRecording w url st1 o
              = (setWsRef true (setMediaRecorderRef true st1),
                 [GetUserMedia; MediaRecorderNew; WebSocketNew (wsUrl url)])).
  { subst st1. unfold toggleRecording, ws_onmessage. cbn.
    rewrite Hm. unfold startSTT, startWSRecorder. rewrite Hc, Hs, Ho. reflexivity. }
  rewrite E. repeat split.
Qed.

Lemma relay_record_again_after_message_witness :
  recognitionCtor firefox = false
  /\ isSecureContextOk firefox = true
  /\ has (currentQuestionIndex loaded) (answeredOnce loaded) = false
  /\ setup ok = SetupOk
  /\ transcript (fst (toggleRecording firefox backend
                        (ws_onmessage loaded (TextData (str "hello"))) ok))
     = str "hello".
Proof.
  assert (H : has (currentQuestionIndex loaded) (answeredOnce loaded) = false)
    by (vm_compute; reflexivity).
  split; [reflexivity|]. split; [reflexivity|]. split; [exact H|].
  split; [reflexivity|].
  apply (relay_record_again_after_message firefox backend loaded
           (TextData (str "hello")) ok eq_refl eq_refl H eq_refl).
Defined.

(** *** A whole native session *)

Lemma recognize_frame (es : list RecognitionEvent) (st : state) :
  currentQuestionIndex (recognize st es) = currentQuestionIndex st
  /\ isRecording (recognize st es) = isRecording st
  /\ answeredOnce (recognize st es) = answeredOnce st
  /\ isUsingWsRef (recognize st es) = isUsingWsRef st
  /\ currentAnswer (recognize st es) = currentAnswer st
  /\ answers (recognize st es) = answers st
  /\ questions (recognize st es) = questions st.
Proof.
  unfold recognize. revert st. induction es as [|e es IH]; intros st.
  - repeat split.
  - cbn [foldl]. destruct (IH (rec_onresult st e)) as (-> & -> & -> & -> & -> & -> & ->).
    unfold rec_onresult. destruct (collect _ _ _) as [f t].
    destruct (truthy f); repeat split.
Qed.

Lemma recognize_interim (es : list RecognitionEvent) (st : state) :
  interim (recognize st es)
  = match last es with
    | Some e => trim (concat (interimFragments e))
    | None => interim st
    end.
Proof.
  induction es as [|e es _] using rev_ind; [reflexivity|].
  unfold recognize. rewrite foldl_app, last_snoc. cbn [foldl].
  apply rec_onresult_spec.
Qed.

(** Recording an answer with the native engine, from the first click to
    the advance: after a start that succeeds, any result events and the
    stopping click, the recording is off, the question is marked, and the
    advance records for the question the committed text of the events
    followed, after a space, by the interim text of the last event, trimmed,
    or the retained answer text when that is empty. *)
Theorem native_session_answer
    (COUNT_ROLE : nat) (w : option Window) (url : jsstring)
    (st : state) (es : list RecognitionEvent) (o o' : start_oracle) :
  recognitionCtor w = true ->
  isSecureContextOk w = true ->
  has (currentQuestionIndex st) (answeredOnce st) = false ->
  isRecording st = false ->
  isUsingWsRef st = false ->
  start_throws o = false ->
  let stopped :=
    fst (toggleRecording w url (recognize (fst (toggleRecording w url st o)) es) o') in
  let i := match last es with
           | Some e => trim (concat (interimFragments e))
           | None => []
           end in
  isRecording stopped = false
  /\ has (currentQuestionIndex st) (answeredOnce stopped) = true
  /\ transcript stopped = committed es
  /\ answers (fst (handleNext COUNT_ROLE stopped))
     = answers st
       ++ [{| question := questions st !! currentQuestionIndex st;
              answer := or_else
                          (trim (committed es
                                 ++ (if truthy i
                                     then (if truthy (committed es) then str " " else [])
                                          ++ i
                                     else [])))
                          (currentAnswer st);
              type := if (currentQuestionIndex st <? COUNT_ROLE)%nat
                      then role else resume |}].
Proof.
  intros Hc Hs Hm Hrec Hws Hst stopped i.
  set (started := fst (toggleRecording w url st o)).
  assert (Hstarted : started
                     = setIsRecording true
                         (setInterim [] (setTranscript []
                            (setRecognitionInstanceRef true st)))).
  { subst started. unfold toggleRecording, startSTT.
    rewrite Hm, Hrec, Hc, Hs, Hst. reflexivity. }
  destruct (recognize_frame es started) as (F1 & F2 & F3 & F4 & F5 & F6 & F7).
  pose proof (recognize_transcript es started) as Ht.
  pose proof (recognize_interim es started) as Hi.
  assert (Hstopped : stopped
                     = setAnsweredOnce ({[currentQuestionIndex st]} ∪ answeredOnce st)
                         (setIsRecording false (recognize started es))).
  { subst stopped. fold started. unfold toggleRecording, stopSTT.
    rewrite F1, F2, F3, F4, Hstarted. cbn. rewrite Hm, Hws. reflexivity. }
  rewrite Hstarted in F1, F5, F6, F7, Ht, Hi. cbn in F1, F5, F6, F7, Ht, Hi.
  rewrite glue_empty in Ht. fold (committed es) in Ht.
  rewrite <- Hstarted in F1, F5, F6, F7, Ht, Hi.
  rewrite Hstopped. split; [reflexivity|].
  split.
  { apply has_true. cbn. apply elem_of_union. left. apply elem_of_singleton. reflexivity. }
  split; [exact Ht|].
  rewrite handleNext_appends. unfold composedTranscript. cbn.
  rewrite F6, F7, F1, F5, Ht, Hi. subst i. destruct (last es); reflexivity.
Qed.

Lemma native_session_answer_witness :
  recognitionCtor chrome = true
  /\ isSecureContextOk chrome = true
  /\ has (currentQuestionIndex loaded) (answeredOnce loaded) = false
  /\ isRecording loaded = false
  /\ isUsingWsRef loaded = false
  /\ start_throws ok = false
  /\ transcript
       (fst (toggleRecording chrome backend
               (recognize (fst (toggleRecording chrome backend loaded ok))
                  [said "hello"; said " world"]) ok))
     = committed [said "hello"; said " world"].
Proof.
  assert (H : has (currentQuestionIndex loaded) (answeredOnce loaded) = false)
    by (vm_compute; reflexivity).
  split; [reflexivity|]. split; [reflexivity|]. split; [exact H|].
  split; [reflexivity|]. split; [reflexivity|]. split; [reflexivity|].
  apply (native_session_answer COUNT_ROLE_source chrome backend loaded
           [said "hello"; said " world"] ok ok eq_refl eq_refl H eq_refl eq_refl eq_refl).
Defined.

(** *** The view and the handlers *)

(** The advance button is labelled "Complete Technical Interview" exactly
    when a click calls the completion callback, and "Next Question" exactly
    when a click moves to the following question without calling it; the
    retreat button is disabled exactly when a retreat would change
    nothing. *)
Theorem navigation_buttons_match_handlers (COUNT_ROLE : nat) (st : state) :
  (nextButtonLabel st = str "Complete Technical Interview"
   <-> exists a, snd (handleNext COUNT_ROLE st) = [OnNext a])
  /\ (nextButtonLabel st = str "Next Question"
      <-> snd (handleNext COUNT_ROLE st) = []
          /\ currentQuestionIndex (fst (handleNext COUNT_ROLE st))
             = S (currentQuestionIndex st))
  /\ (previousDisabled st = true <-> handlePrevious st = st).
Proof.
  unfold nextButtonLabel, handleNext, previousDisabled, handlePrevious.
  destruct (Z.of_nat (currentQuestionIndex st) <? Z.of_nat (length (questions st)) - 1);
    cbn [fst snd].
  - split; [|split].
    + split; [discriminate | intros [a Ha]; discriminate].
    + split; [intros _; split; [reflexivity | cbn; lia] | reflexivity].
    + destruct (currentQuestionIndex st) as [|i] eqn:Hi; cbn.
      * split; reflexivity.
      * split; [discriminate|]. intros H.
        apply (f_equal currentQuestionIndex) in H. cbn in H. lia.
  - split; [|split].
    + split; [intros _; eexists; reflexivity | reflexivity].
    + split; [discriminate | intros [H _]; discriminate].
    + destruct (currentQuestionIndex st) as [|i] eqn:Hi; cbn.
      * split; reflexivity.
      * split; [discriminate|]. intros H.
        apply (f_equal currentQuestionIndex) in H. cbn in H. lia.
Qed.

(** The three places that fix the number of role-based questions agree:
    the question request asks for as many role-based questions as
    [COUNT_ROLE] says, and the badge shown beside a question reads
    "Role-based" exactly when the answer recorded for it is tagged [role],
    "Resume-based" exactly when it is tagged [resume]. *)
Theorem role_count_in_sync (st : state) :
  fetchQs_request = [FetchTechnicalQuestions (Z.of_nat COUNT_ROLE_source) 8]
  /\ (badge st = str "Role-based"
      <-> type <$> last (answers (fst (handleNext COUNT_ROLE_source st))) = Some role)
  /\ (badge st = str "Resume-based"
      <-> type <$> last (answers (fst (handleNext COUNT_ROLE_source st))) = Some resume).
Proof.
  split; [reflexivity|].
  rewrite handleNext_appends, last_snoc. unfold badge, COUNT_ROLE_source. cbn [type fmap option_fmap option_map].
  destruct (currentQuestionIndex st <? 7)%nat; split; split;
    intros H; try reflexivity; try discriminate H.
Qed.

End InterviewFlow.
